(** * CRYENGINE: the editor framework ([CEditor], Editor.cpp)

    A shallow embedding of the parts of
    [Code/Sandbox/Plugins/EditorCommon/EditorFramework/Editor.cpp] that carry
    the recent-files list, the adaptive-layout controller, the layout
    save/restore pair and the menu lookup, followed by the properties the
    specification states about them. *)

From stdpp Require Import gmap strings list fin_maps.
From Equations Require Import Equations.
From Stdlib Require Import ZArith Lia.

Local Open Scope Z_scope.

(** ** The Qt values the editor handles *)

(** [QVariant], restricted to the alternatives Editor.cpp stores or reads:
    the invalid variant, [bool], [QString], [QStringList] and [QVariantMap]
    (a [QMap<QString, QVariant>]). *)
#[warnings="-register-all"]
Inductive QVariant : Type :=
  | QInvalid
  | QBool (b : bool)
  | QStr (s : string)
  | QStrList (l : list string)
  | QMap (m : gmap string QVariant).

Abbreviation QVariantMap := (gmap string QVariant).
Abbreviation QStringList := (list string).

Global Instance QVariant_inhabited : Inhabited QVariant := populate QInvalid.

Module QVariant.

(** [QString::toLower], on the ASCII letters. *)
Definition toLowerAscii (c : Ascii.ascii) : Ascii.ascii :=
  let n := Ascii.nat_of_ascii c in
  if ((65 <=? n) && (n <=? 90))%nat then Ascii.ascii_of_nat (n + 32) else c.

Fixpoint toLower (s : string) : string :=
  match s with
  | String.EmptyString => String.EmptyString
  | String.String c s' => String.String (toLowerAscii c) (toLower s')
  end.

(** [QVariant::toBool]: a [bool] is itself; a string is true unless, in
    lower case, it is empty, "0" or "false"; the invalid variant, lists and
    maps are false. *)
Definition toBool (v : QVariant) : bool :=
  match v with
  | QBool b => b
  | QStr s =>
      let str := toLower s in
      negb (bool_decide (str = "") || bool_decide (str = "0")
            || bool_decide (str = "false"))%string
  | _ => false
  end.

(** [QVariant::toMap]: the map held, or an empty map for anything else. *)
Definition toMap (v : QVariant) : QVariantMap :=
  match v with
  | QMap m => m
  | _ => ∅
  end.

(** [QVariant::toStringList]: the list held; a single string converts to
    the one-element list; anything else gives the empty list. *)
Definition toStringList (v : QVariant) : QStringList :=
  match v with
  | QStrList l => l
  | QStr s => [s]
  | _ => []
  end.

End QVariant.

(** [QMap::operator[] const] and [QMap::value]: the value stored under the
    key, or a default-constructed (invalid) variant. *)
Definition value (m : QVariantMap) (k : string) : QVariant := m !!! k.

(** [QMap::contains]. *)
Definition contains (m : QVariantMap) (k : string) : bool :=
  bool_decide (is_Some (m !! k)).

Module QList.
Section ops.
Context {A : Type} `{EqDecision A}.

(** [QList::indexOf]: index of the first occurrence, or -1. *)
Fixpoint indexOf (l : list A) (x : A) : Z :=
  match l with
  | [] => -1
  | y :: l' =>
      if decide (y = x) then 0
      else let i := indexOf l' x in if i <? 0 then -1 else i + 1
  end.

(** [QList::removeAt]: removes the item at a valid index; an index out
    of range leaves the list as it is. *)
Definition removeAt (l : list A) (i : Z) : list A :=
  if (0 <=? i) && (i <? Z.of_nat (length l))
  then delete (Z.to_nat i) l else l.

(** [QList::push_front]. *)
Definition push_front (l : list A) (x : A) : list A := x :: l.

(** [QList::size], an [int]. *)
Definition size (l : list A) : Z := Z.of_nat (length l).

(** [QList::mid(pos, length)] for a non-negative position and length. *)
Definition mid (l : list A) (pos len : Z) : list A :=
  take (Z.to_nat len) (drop (Z.to_nat pos) l).
End ops.
End QList.

(** ** The personalization manager *)

(** Modelled from the spec: [CPersonalizationManager] (PersonalizationManager.h)
    lives outside Editor.cpp.  Section 4.6 describes it as a
    key-value store scoped per editor name, with separate per-editor and
    per-project properties, where reading a key that was never set yields
    the invalid sentinel. *)
Record CPersonalizationManager : Type := {
  properties : gmap string QVariantMap;
  projectProperties : gmap string QVariantMap;
}.

Module PersonalizationManager.

Definition GetProperty (pm : CPersonalizationManager)
    (editorName propName : string) : QVariant :=
  value (default ∅ (properties pm !! editorName)) propName.

Definition SetProperty (pm : CPersonalizationManager)
    (editorName propName : string) (v : QVariant) : CPersonalizationManager :=
  {| properties :=
       <[editorName := <[propName := v]> (default ∅ (properties pm !! editorName))]>
         (properties pm);
     projectProperties := projectProperties pm |}.

Definition GetProjectProperty (pm : CPersonalizationManager)
    (editorName propName : string) : QVariant :=
  value (default ∅ (projectProperties pm !! editorName)) propName.

Definition SetProjectProperty (pm : CPersonalizationManager)
    (editorName propName : string) (v : QVariant) : CPersonalizationManager :=
  {| properties := properties pm;
     projectProperties :=
       <[editorName := <[propName := v]> (default ∅ (projectProperties pm !! editorName))]>
         (projectProperties pm) |}.

End PersonalizationManager.

(** ** Toolkit and framework values *)

(** [Qt::Orientation]. *)
Inductive Orientation : Type := Horizontal | Vertical.

Global Instance Orientation_eq_dec : EqDecision Orientation.
Proof. solve_decision. Defined.

(** A [QCommandAction] as far as the editor touches one: the command it
    runs and the check mark of the underlying [QAction]. *)
Record QCommandAction : Type := {
  command : string;
  checkable : bool;
  checked : bool;
}.

(** [QAction::setChecked]: ignored on an action that is not checkable or
    that already has the requested state. *)
Definition setChecked (a : QCommandAction) (b : bool) : QCommandAction :=
  if negb (checkable a) || Bool.eqb (checked a) b then a
  else {| command := command a; checkable := checkable a; checked := b |}.

(** [CEditor::MenuItems]: the enumerators Editor.cpp names. *)
Inductive MenuItems : Type :=
  | FileMenu | New | NewFolder | Open | Close | Save | SaveAs | RecentFiles
  | EditMenu | Undo | Redo | Copy | Cut | Paste | Rename | Delete
  | Find | FindPrevious | FindNext | SelectAll | Duplicate
  | ViewMenu | ZoomIn | ZoomOut
  | ToolBarMenu | WindowMenu | HelpMenu | Help.

Global Instance MenuItems_eq_dec : EqDecision MenuItems.
Proof. solve_decision. Defined.

(** ** The menu descriptor *)

Module MenuDesc.

(** A declaration of the descriptor tree, as [InitMenuDesc] writes them:
    [AddMenu(key, section, priority, name, children...)] and
    [AddAction(key, section, priority, action)].  An action is kept by the
    command name it was looked up with. *)
#[warnings="-register-all"]
Inductive Item : Type :=
  | AddMenu (key : MenuItems) (section priority : Z) (name : string)
            (children : list Item)
  | AddAction (key : MenuItems) (section priority : Z) (action : string).

Definition key (i : Item) : MenuItems :=
  match i with
  | AddMenu k _ _ _ _ => k
  | AddAction k _ _ _ => k
  end.

Definition isMenu (i : Item) : bool :=
  match i with
  | AddMenu _ _ _ _ _ => true
  | AddAction _ _ _ _ => false
  end.

(** The entry declared for a key: the first match in declaration order,
    descending into submenus. *)
Fixpoint findItem (k : MenuItems) (i : Item) : option Item :=
  if decide (key i = k) then Some i
  else match i with
       | AddMenu _ _ _ _ children =>
           (fix go (l : list Item) : option Item :=
              match l with
              | [] => None
              | c :: l' =>
                  match findItem k c with
                  | Some r => Some r
                  | None => go l'
                  end
              end) children
       | AddAction _ _ _ _ => None
       end.

Fixpoint find (k : MenuItems) (desc : list Item) : option Item :=
  match desc with
  | [] => None
  | i :: desc' =>
      match findItem k i with
      | Some r => Some r
      | None => find k desc'
      end
  end.

(** Modelled from the spec: [CDesc::GetMenuName] (Menu/MenuDesc.h) lives
    outside Editor.cpp.  Section 4.2: "[GetMenuName(item) ->
    string] (empty if item is not a menu)". *)
Definition GetMenuName (desc : list Item) (k : MenuItems) : string :=
  match find k desc with
  | Some (AddMenu _ _ _ name _) => name
  | _ => ""
  end.

End MenuDesc.

(** The descriptor [CEditor::InitMenuDesc] declares.  The priority of the
    help menu is [CAbstractMenu::ePriorities_Append], a constant of
    AbstractMenu.h that is taken as a parameter. *)
Definition InitMenuDesc (ePriorities_Append : Z) : list MenuDesc.Item :=
  let AddMenu := MenuDesc.AddMenu in
  let AddAction := MenuDesc.AddAction in
  [ AddMenu FileMenu 0 0 "File"
      [ AddAction New 0 0 "general.new";
        AddAction NewFolder 0 1 "general.new_folder";
        AddAction Open 0 2 "general.open";
        AddAction Close 0 3 "general.close";
        AddAction Save 0 4 "general.save";
        AddAction SaveAs 0 5 "general.save_as";
        AddMenu RecentFiles 0 6 "Recent Files" [] ];
    AddMenu EditMenu 0 1 "Edit"
      [ AddAction Undo 0 0 "general.undo";
        AddAction Redo 0 1 "general.redo";
        AddAction Copy 1 0 "general.copy";
        AddAction Cut 1 1 "general.cut";
        AddAction Paste 1 2 "general.paste";
        AddAction Rename 1 3 "general.rename";
        AddAction Delete 1 4 "general.delete";
        AddAction Find 2 0 "general.find";
        AddAction FindPrevious 2 1 "general.find_previous";
        AddAction FindNext 2 2 "general.find_next";
        AddAction SelectAll 2 3 "general.select_all";
        AddAction Duplicate 3 0 "general.duplicate" ];
    AddMenu ViewMenu 0 2 "View"
      [ AddAction ZoomIn 0 0 "general.zoom_in";
        AddAction ZoomOut 0 1 "general.zoom_out" ];
    AddMenu ToolBarMenu 0 10 "Toolbars" [];
    AddMenu WindowMenu 0 20 "Window" [];
    AddMenu HelpMenu 1 ePriorities_Append "Help"
      [ AddAction Help 0 0 "general.help" ] ].

(** ** Collaborators of the editor

    [CAbstractMenu], [CDockableContainer] and [CEditorContent] are classes
    the editor only calls into.  Each is taken as an interface: a carrier
    type with the member functions Editor.cpp uses. *)

Module CAbstractMenu.
(** [M] is a menu tree, [H] what a [CAbstractMenu*] into it denotes. *)
Class Ops (M H : Type) : Type := {
  FindMenuRecursive : M → string → option H;
  (** [CDesc::AddItem(pMenu, item)], which fills the menu from the
      descriptor. *)
  AddItem : list MenuDesc.Item → M → MenuItems → M;
  (** [signalAboutToShow.Connect] on the submenu behind a handle. *)
  ConnectAboutToShow : M → H → M;
}.
End CAbstractMenu.

Module CDockableContainer.
Class Ops (D H : Type) : Type := {
  (** [new CDockableContainer(this, startingLayout)]. *)
  Create : QVariantMap → D;
  SetMenu : D → option H → D;
  SetState : D → QVariantMap → D;
  GetState : D → QVariantMap;
}.
End CDockableContainer.

(** What [CEditorContent::SetContent] is handed: the editor's own docking
    registry or some other widget or layout. *)
Inductive Content : Type :=
  | DockingRegistryContent
  | OtherContent (name : string).

Module CEditorContent.
Class Ops (C : Type) : Type := {
  SetContent : C → Content → C;
  SetState : C → QVariantMap → C;
  GetState : C → QVariantMap;
}.
End CEditorContent.

(** ** The editor *)

Module Private_EditorFramework.
Definition s_maxRecentFiles : Z := 10.
End Private_EditorFramework.

Section Editor.

Context {M H D C : Type}.
Context `{!CAbstractMenu.Ops M H, !CDockableContainer.Ops D H,
          !CEditorContent.Ops C}.

(** The state of a [CEditor] built as a front end ([bIsOnlyBackend] false,
    so the constructor creates the content, the descriptor and the menu).
    The first three fields are the virtual functions a concrete editor
    answers, [width] and [height] the geometry of the widget, and
    [signalAdaptiveLayoutChanged] the values the signal has been raised
    with, oldest first. *)
Record CEditor : Type := {
  GetEditorName : string;
  SupportsAdaptiveLayout : bool;
  GetDefaultOrientation : Orientation;
  width : Z;
  height : Z;
  m_pMenuDesc : list MenuDesc.Item;
  m_pMenu : M;
  m_pEditorContent : C;
  m_dockingRegistry : option D;
  m_pActionAdaptiveLayout : option QCommandAction;
  m_isAdaptiveLayoutEnabled : bool;
  m_currentOrientation : Orientation;
  signalAdaptiveLayoutChanged : list Orientation;
}.

Definition set_size (w h : Z) (e : CEditor) : CEditor :=
  {| GetEditorName := GetEditorName e;
     SupportsAdaptiveLayout := SupportsAdaptiveLayout e;
     GetDefaultOrientation := GetDefaultOrientation e;
     width := w; height := h;
     m_pMenuDesc := m_pMenuDesc e; m_pMenu := m_pMenu e;
     m_pEditorContent := m_pEditorContent e;
     m_dockingRegistry := m_dockingRegistry e;
     m_pActionAdaptiveLayout := m_pActionAdaptiveLayout e;
     m_isAdaptiveLayoutEnabled := m_isAdaptiveLayoutEnabled e;
     m_currentOrientation := m_currentOrientation e;
     signalAdaptiveLayoutChanged := signalAdaptiveLayoutChanged e |}.

Definition set_m_pMenu (m : M) (e : CEditor) : CEditor :=
  {| GetEditorName := GetEditorName e;
     SupportsAdaptiveLayout := SupportsAdaptiveLayout e;
     GetDefaultOrientation := GetDefaultOrientation e;
     width := width e; height := height e;
     m_pMenuDesc := m_pMenuDesc e; m_pMenu := m;
     m_pEditorContent := m_pEditorContent e;
     m_dockingRegistry := m_dockingRegistry e;
     m_pActionAdaptiveLayout := m_pActionAdaptiveLayout e;
     m_isAdaptiveLayoutEnabled := m_isAdaptiveLayoutEnabled e;
     m_currentOrientation := m_currentOrientation e;
     signalAdaptiveLayoutChanged := signalAdaptiveLayoutChanged e |}.

Definition set_m_pEditorContent (c : C) (e : CEditor) : CEditor :=
  {| GetEditorName := GetEditorName e;
     SupportsAdaptiveLayout := SupportsAdaptiveLayout e;
     GetDefaultOrientation := GetDefaultOrientation e;
     width := width e; height := height e;
     m_pMenuDesc := m_pMenuDesc e; m_pMenu := m_pMenu e;
     m_pEditorContent := c;
     m_dockingRegistry := m_dockingRegistry e;
     m_pActionAdaptiveLayout := m_pActionAdaptiveLayout e;
     m_isAdaptiveLayoutEnabled := m_isAdaptiveLayoutEnabled e;
     m_currentOrientation := m_currentOrientation e;
     signalAdaptiveLayoutChanged := signalAdaptiveLayoutChanged e |}.

Definition set_m_dockingRegistry (d : option D) (e : CEditor) : CEditor :=
  {| GetEditorName := GetEditorName e;
     SupportsAdaptiveLayout := SupportsAdaptiveLayout e;
     GetDefaultOrientation := GetDefaultOrientation e;
     width := width e; height := height e;
     m_pMenuDesc := m_pMenuDesc e; m_pMenu := m_pMenu e;
     m_pEditorContent := m_pEditorContent e;
     m_dockingRegistry := d;
     m_pActionAdaptiveLayout := m_pActionAdaptiveLayout e;
     m_isAdaptiveLayoutEnabled := m_isAdaptiveLayoutEnabled e;
     m_currentOrientation := m_currentOrientation e;
     signalAdaptiveLayoutChanged := signalAdaptiveLayoutChanged e |}.

Definition set_m_pActionAdaptiveLayout (a : option QCommandAction)
    (e : CEditor) : CEditor :=
  {| GetEditorName := GetEditorName e;
     SupportsAdaptiveLayout := SupportsAdaptiveLayout e;
     GetDefaultOrientation := GetDefaultOrientation e;
     width := width e; height := height e;
     m_pMenuDesc := m_pMenuDesc e; m_pMenu := m_pMenu e;
     m_pEditorContent := m_pEditorContent e;
     m_dockingRegistry := m_dockingRegistry e;
     m_pActionAdaptiveLayout := a;
     m_isAdaptiveLayoutEnabled := m_isAdaptiveLayoutEnabled e;
     m_currentOrientation := m_currentOrientation e;
     signalAdaptiveLayoutChanged := signalAdaptiveLayoutChanged e |}.

Definition set_m_isAdaptiveLayoutEnabled (b : bool) (e : CEditor) : CEditor :=
  {| GetEditorName := GetEditorName e;
     SupportsAdaptiveLayout := SupportsAdaptiveLayout e;
     GetDefaultOrientation := GetDefaultOrientation e;
     width := width e; height := height e;
     m_pMenuDesc := m_pMenuDesc e; m_pMenu := m_pMenu e;
     m_pEditorContent := m_pEditorContent e;
     m_dockingRegistry := m_dockingRegistry e;
     m_pActionAdaptiveLayout := m_pActionAdaptiveLayout e;
     m_isAdaptiveLayoutEnabled := b;
     m_currentOrientation := m_currentOrientation e;
     signalAdaptiveLayoutChanged := signalAdaptiveLayoutChanged e |}.

Definition set_m_currentOrientation (o : Orientation) (e : CEditor) : CEditor :=
  {| GetEditorName := GetEditorName e;
     SupportsAdaptiveLayout := SupportsAdaptiveLayout e;
     GetDefaultOrientation := GetDefaultOrientation e;
     width := width e; height := height e;
     m_pMenuDesc := m_pMenuDesc e; m_pMenu := m_pMenu e;
     m_pEditorContent := m_pEditorContent e;
     m_dockingRegistry := m_dockingRegistry e;
     m_pActionAdaptiveLayout := m_pActionAdaptiveLayout e;
     m_isAdaptiveLayoutEnabled := m_isAdaptiveLayoutEnabled e;
     m_currentOrientation := o;
     signalAdaptiveLayoutChanged := signalAdaptiveLayoutChanged e |}.

(** Raising the signal appends the value to what has been raised. *)
Definition emit_signalAdaptiveLayoutChanged (o : Orientation)
    (e : CEditor) : CEditor :=
  {| GetEditorName := GetEditorName e;
     SupportsAdaptiveLayout := SupportsAdaptiveLayout e;
     GetDefaultOrientation := GetDefaultOrientation e;
     width := width e; height := height e;
     m_pMenuDesc := m_pMenuDesc e; m_pMenu := m_pMenu e;
     m_pEditorContent := m_pEditorContent e;
     m_dockingRegistry := m_dockingRegistry e;
     m_pActionAdaptiveLayout := m_pActionAdaptiveLayout e;
     m_isAdaptiveLayoutEnabled := m_isAdaptiveLayoutEnabled e;
     m_currentOrientation := m_currentOrientation e;
     signalAdaptiveLayoutChanged := signalAdaptiveLayoutChanged e ++ [o] |}.

(** *** Personalization *)

Definition GetProperty (e : CEditor) (pm : CPersonalizationManager)
    (propName : string) : QVariant :=
  PersonalizationManager.GetProperty pm (GetEditorName e) propName.

Definition SetProperty (e : CEditor) (pm : CPersonalizationManager)
    (propName : string) (v : QVariant) : CPersonalizationManager :=
  PersonalizationManager.SetProperty pm (GetEditorName e) propName v.

Definition GetProjectProperty (e : CEditor) (pm : CPersonalizationManager)
    (propName : string) : QVariant :=
  PersonalizationManager.GetProjectProperty pm (GetEditorName e) propName.

Definition SetProjectProperty (e : CEditor) (pm : CPersonalizationManager)
    (propName : string) (v : QVariant) : CPersonalizationManager :=
  PersonalizationManager.SetProjectProperty pm (GetEditorName e) propName v.

(** *** Recent files *)

Definition GetRecentFiles (e : CEditor) (pm : CPersonalizationManager)
    : QStringList :=
  let property := GetProjectProperty e pm "Recent Files" in
  QVariant.toStringList property.

Definition AddRecentFile (e : CEditor) (pm : CPersonalizationManager)
    (filePath : string) : CPersonalizationManager :=
  let recent := GetRecentFiles e pm in
  let index := QList.indexOf recent filePath in
  let recent := if index >? -1 then QList.removeAt recent index else recent in
  let recent := QList.push_front recent filePath in
  let recent :=
    if QList.size recent >? Private_EditorFramework.s_maxRecentFiles
    then QList.mid recent 0 Private_EditorFramework.s_maxRecentFiles
    else recent in
  SetProjectProperty e pm "Recent Files" (QStrList recent).

(** A run of [AddRecentFile] calls, first call first. *)
Definition AddRecentFiles (e : CEditor) (pm : CPersonalizationManager)
    (filePaths : list string) : CPersonalizationManager :=
  foldl (AddRecentFile e) pm filePaths.

(** *** Menus *)

(** [GetMenu(MenuItems)]; [None] is the null pointer. *)
Definition GetMenu (e : CEditor) (menuItem : MenuItems) : option H :=
  let name := MenuDesc.GetMenuName (m_pMenuDesc e) menuItem in
  if negb (bool_decide (name = ""%string))
  then CAbstractMenu.FindMenuRecursive (m_pMenu e) name
  else None.

(** [AddToMenu(MenuItems)].  For the recent-files item the submenu just
    added is looked up and its about-to-show signal connected; the lookup
    result is dereferenced as it is, so a null result ends the run
    ([None]). *)
Definition AddToMenu (e : CEditor) (item : MenuItems) : option CEditor :=
  let e := set_m_pMenu (CAbstractMenu.AddItem (m_pMenuDesc e) (m_pMenu e) item) e in
  if decide (item = RecentFiles) then
    pRecentFilesMenu ← GetMenu e RecentFiles;
    Some (set_m_pMenu (CAbstractMenu.ConnectAboutToShow (m_pMenu e) pRecentFilesMenu) e)
  else Some e.

(** *** Docking *)

(** [SetContent] for a widget; the assertion before the call only reports. *)
Definition SetContent (e : CEditor) (content : Content) : CEditor :=
  set_m_pEditorContent
    (CEditorContent.SetContent (m_pEditorContent e) content) e.

(** [EnableDockingSystem].  Wiring [OnLayoutChange] and the default-layout
    callback changes no field of the editor. *)
Definition EnableDockingSystem (e : CEditor) (pm : CPersonalizationManager)
    : option CEditor :=
  match m_dockingRegistry e with
  | Some _ => Some e
  | None =>
      e ← AddToMenu e WindowMenu;
      let registry :=
        CDockableContainer.Create (QVariant.toMap (GetProperty e pm "dockLayout")) in
      let registry := CDockableContainer.SetMenu registry (GetMenu e WindowMenu) in
      let e := set_m_dockingRegistry (Some registry) e in
      Some (SetContent e DockingRegistryContent)
  end.

(** *** Adaptive layout *)

(** Modelled from the spec: [IsAdaptiveLayoutEnabled] is declared in
    Editor.h, outside Editor.cpp.  The constructor enables the flag "for
    all editors who support this feature" and [resizeEvent] uses the
    function to leave early when "adaptive layout is disabled or this
    editor doesn't support adaptive layout": the function is the flag of
    an editor that supports the feature. *)
Definition IsAdaptiveLayoutEnabled (e : CEditor) : bool :=
  SupportsAdaptiveLayout e && m_isAdaptiveLayoutEnabled e.

Definition OnAdaptiveLayoutChanged (e : CEditor) : CEditor :=
  emit_signalAdaptiveLayoutChanged (m_currentOrientation e) e.

Definition UpdateAdaptiveLayout (e : CEditor) : CEditor :=
  if negb (IsAdaptiveLayoutEnabled e) then
    let e := set_m_currentOrientation (GetDefaultOrientation e) e in
    OnAdaptiveLayoutChanged e
  else
    let newOrientation :=
      if width e >? height e then Horizontal else Vertical in
    if decide (newOrientation = m_currentOrientation e) then e
    else
      let e := set_m_currentOrientation newOrientation e in
      OnAdaptiveLayoutChanged e.

(** [SetAdaptiveLayoutEnabled].  [m_pActionAdaptiveLayout] is null until
    [Initialize] creates the action for an editor that supports adaptive
    layout; the call through a null pointer ends the run ([None]). *)
Definition SetAdaptiveLayoutEnabled (e : CEditor) (enable : bool)
    : option CEditor :=
  if decide (m_isAdaptiveLayoutEnabled e = enable) then Some e
  else
    let e := set_m_isAdaptiveLayoutEnabled enable e in
    pAction ← m_pActionAdaptiveLayout e;
    let e :=
      set_m_pActionAdaptiveLayout
        (Some (setChecked pAction (m_isAdaptiveLayoutEnabled e))) e in
    Some (UpdateAdaptiveLayout e).

(** The action [InitActions] registers as "editor.toggle_adaptive_layout". *)
Definition toggle_adaptive_layout (e : CEditor) : option CEditor :=
  SetAdaptiveLayoutEnabled e (negb (IsAdaptiveLayoutEnabled e)).

(** [resizeEvent] for a widget that has just taken the size [w] x [h]. *)
Definition resizeEvent (e : CEditor) (w h : Z) : CEditor :=
  let e := set_size w h e in
  if negb (IsAdaptiveLayoutEnabled e) then e
  else UpdateAdaptiveLayout e.

(** *** Layout *)

Definition SetLayout (e : CEditor) (state : QVariantMap) : option CEditor :=
  e ← (if contains state "adaptiveLayout"
       then SetAdaptiveLayoutEnabled e
              (QVariant.toBool (value state "adaptiveLayout"))
       else Some e);
  let e :=
    match m_dockingRegistry e with
    | Some registry =>
        if contains state "dockingState"
        then set_m_dockingRegistry
               (Some (CDockableContainer.SetState registry
                        (QVariant.toMap (value state "dockingState")))) e
        else e
    | None => e
    end in
  Some (set_m_pEditorContent
          (CEditorContent.SetState (m_pEditorContent e)
             (QVariant.toMap (value state "editorContent"))) e).

Definition GetLayout (e : CEditor) : QVariantMap :=
  let result : QVariantMap := ∅ in
  let result :=
    match m_dockingRegistry e with
    | Some registry =>
        <["dockingState" := QMap (CDockableContainer.GetState registry)]> result
    | None => result
    end in
  let result :=
    <["editorContent" := QMap (CEditorContent.GetState (m_pEditorContent e))]> result in
  <["adaptiveLayout" := QBool (m_isAdaptiveLayoutEnabled e)]> result.

(** The statements of [SetLayout] after the first, on their own: the
    docking registry takes its entry when both are there, the content
    always takes its entry. *)
Definition restoreWidgets (e : CEditor) (state : QVariantMap) : CEditor :=
  let e :=
    match m_dockingRegistry e with
    | Some registry =>
        if contains state "dockingState"
        then set_m_dockingRegistry
               (Some (CDockableContainer.SetState registry
                        (QVariant.toMap (value state "dockingState")))) e
        else e
    | None => e
    end in
  set_m_pEditorContent
    (CEditorContent.SetState (m_pEditorContent e)
       (QVariant.toMap (value state "editorContent"))) e.

End Editor.

Arguments CEditor : clear implicits.

(** ** Vocabulary of the specification *)

Section recency.
Context {A : Type} `{EqDecision A}.

(** The list without the first occurrence of [x]. *)
Fixpoint dropFirst (x : A) (l : list A) : list A :=
  match l with
  | [] => []
  | y :: l' => if decide (y = x) then l' else y :: dropFirst x l'
  end.

(** "Most-recently-used ordering, deduplicated": the paths of a run of
    adds, each once, the latest add first. *)
Definition mostRecentFirst (adds : list A) : list A :=
  foldl (λ acc p, p :: filter (λ y, y ≠ p) acc) [] adds.
End recency.

(** ** A plain realisation of the collaborators

    Modelled from the spec: the bodies of [CAbstractMenu],
    [CDockableContainer] and [CEditorContent] live outside Editor.cpp.  This
    realisation follows what the specification says of them: [AddItem]
    creates the menu a descriptor entry names unless it is there already
    (section 4.3, [CreateMenu] is idempotent), lookups are by name, and the
    docking registry and the editor content hand back the state they were
    given (section 8, "the nested maps round-trip unchanged").  It serves to
    run the editor on concrete inputs. *)
Module Plain.

(** The menus present, by name; a handle is the name. *)
Definition Menu : Type := list string.

Definition AddItem (desc : list MenuDesc.Item) (m : Menu) (item : MenuItems)
    : Menu :=
  let name := MenuDesc.GetMenuName desc item in
  if bool_decide (name = ""%string) || bool_decide (name ∈ m) then m
  else m ++ [name].

Global Instance menu_ops : CAbstractMenu.Ops Menu string := {|
  CAbstractMenu.FindMenuRecursive m name :=
    if bool_decide (name ∈ m) then Some name else None;
  CAbstractMenu.AddItem := AddItem;
  CAbstractMenu.ConnectAboutToShow m _ := m;
|}.

Record Dock : Type := {
  dockMenu : option string;
  dockState : QVariantMap;
}.

Global Instance dock_ops : CDockableContainer.Ops Dock string := {|
  CDockableContainer.Create startingLayout :=
    {| dockMenu := None; dockState := startingLayout |};
  CDockableContainer.SetMenu d pMenu :=
    {| dockMenu := pMenu; dockState := dockState d |};
  CDockableContainer.SetState d state :=
    {| dockMenu := dockMenu d; dockState := state |};
  CDockableContainer.GetState := dockState;
|}.

Record EditorContent : Type := {
  content : option Content;
  contentState : QVariantMap;
}.

Global Instance content_ops : CEditorContent.Ops EditorContent := {|
  CEditorContent.SetContent c w :=
    {| content := Some w; contentState := contentState c |};
  CEditorContent.SetState c state :=
    {| content := content c; contentState := state |};
  CEditorContent.GetState := contentState;
|}.

Abbreviation Editor := (CEditor Menu Dock EditorContent).

(** An editor after construction and [Initialize]: no docking system yet,
    adaptive layout supported and enabled, a toolbar state in the
    content. *)
Definition editor : Editor := {|
  GetEditorName := "Sample Editor";
  SupportsAdaptiveLayout := true;
  GetDefaultOrientation := Horizontal;
  width := 640; height := 480;
  m_pMenuDesc := InitMenuDesc 1000;
  m_pMenu := ["Help"; "View"]%string;
  m_pEditorContent :=
    {| content := None; contentState := {[ "isLocked"%string := QBool true ]} |};
  m_dockingRegistry := None;
  m_pActionAdaptiveLayout :=
    Some {| command := "editor.toggle_adaptive_layout";
            checkable := true; checked := true |};
  m_isAdaptiveLayoutEnabled := true;
  m_currentOrientation := Horizontal;
  signalAdaptiveLayoutChanged := [];
|}.

(** A personalization store in which nothing was ever set. *)
Definition noPersonalization : CPersonalizationManager :=
  {| properties := ∅; projectProperties := ∅ |}.

(** The same editor once [EnableDockingSystem] has run. *)
Definition dockedEditor : Editor :=
  default editor (EnableDockingSystem editor noPersonalization).

End Plain.

(** The layout state [{dockingState: {}, editorContent: {}, adaptiveLayout:
    true}]. *)
Definition exampleLayout : QVariantMap :=
  <["dockingState"%string := QMap ∅]>
    (<["editorContent"%string := QMap ∅]>
       (<["adaptiveLayout"%string := QBool true]> ∅)).

(** ** Further members of the editor *)

(** [QVariant::isValid]. *)
Definition isValid (v : QVariant) : bool :=
  match v with
  | QInvalid => false
  | _ => true
  end.

(** Modelled from the spec: [CPersonalizationManager::GetState] and
    [SetState] live outside Editor.cpp.  Section 6 describes the store of an
    editor as one key-value map, "the LayoutState shape plus freeform
    caller-defined keys", and [SaveLayoutPersonalization] reads that map,
    inserts "layout" and writes the whole map back: the state of an editor
    is the map its properties live in. *)
Definition PersonalizationManager_GetState (pm : CPersonalizationManager)
    (editorName : string) : QVariantMap :=
  default ∅ (properties pm !! editorName).

Definition PersonalizationManager_SetState (pm : CPersonalizationManager)
    (editorName : string) (state : QVariantMap) : CPersonalizationManager :=
  {| properties := <[editorName := state]> (properties pm);
     projectProperties := projectProperties pm |}.

(** [BroadcastEvent::type()], of which Editor.cpp names one value. *)
Inductive BroadcastEventType : Type :=
  | AboutToQuit
  | OtherBroadcast (id : nat).

Global Instance BroadcastEventType_eq_dec : EqDecision BroadcastEventType.
Proof. solve_decision. Defined.

(** A [BroadcastEvent] as [OnMainFrameAboutToClose] sees it: its type, the
    accept flag of the [QEvent] and, for the about-to-quit event, the change
    lists the editors have added, oldest first. *)
Record BroadcastEvent : Type := {
  type : BroadcastEventType;
  isAccepted : bool;
  changeLists : list (string * list string);
}.

(** [AboutToQuitEvent::AddChangeList]. *)
Definition AddChangeList (event : BroadcastEvent) (key : string)
    (changes : list string) : BroadcastEvent :=
  {| type := type event; isAccepted := isAccepted event;
     changeLists := changeLists event ++ [(key, changes)] |}.

(** [QEvent::ignore]. *)
Definition ignore (event : BroadcastEvent) : BroadcastEvent :=
  {| type := type event; isAccepted := false;
     changeLists := changeLists event |}.

Section DockableEditor.

Context {M H D C : Type}.
Context `{!CAbstractMenu.Ops M H, !CDockableContainer.Ops D H,
          !CEditorContent.Ops C}.

Definition SetPersonalizationState (e : CEditor M D C)
    (pm : CPersonalizationManager) (state : QVariantMap)
    : CPersonalizationManager :=
  PersonalizationManager_SetState pm (GetEditorName e) state.

Definition GetPersonalizationState (e : CEditor M D C)
    (pm : CPersonalizationManager) : QVariantMap :=
  PersonalizationManager_GetState pm (GetEditorName e).

(** [OnLayoutChange], the slot of the registry's layout-change signal. *)
Definition OnLayoutChange (e : CEditor M D C) (pm : CPersonalizationManager)
    (state : QVariantMap) : CPersonalizationManager :=
  SetProperty e pm "dockLayout" (QMap state).

(** [OnMainFrameAboutToClose].  [CanQuit] is the virtual function of the
    concrete editor: handed the empty list of changed files, it answers and
    returns the list filled in. *)
Definition OnMainFrameAboutToClose (e : CEditor M D C)
    (CanQuit : list string → bool * list string) (event : BroadcastEvent)
    : BroadcastEvent :=
  if decide (type event = AboutToQuit) then
    let '(canQuit, changedFiles) := CanQuit [] in
    if negb canQuit then
      let event := AddChangeList event (GetEditorName e) changedFiles in
      ignore event
    else event
  else event.

(** [CDockableEditor::LoadLayoutPersonalization]. *)
Definition LoadLayoutPersonalization (e : CEditor M D C)
    (pm : CPersonalizationManager) : option (CEditor M D C) :=
  let personalization := GetPersonalizationState e pm in
  let layout := value personalization "layout" in
  if isValid layout then SetLayout e (QVariant.toMap layout)
  else Some e.

(** [CDockableEditor::SaveLayoutPersonalization]. *)
Definition SaveLayoutPersonalization (e : CEditor M D C)
    (pm : CPersonalizationManager) : CPersonalizationManager :=
  let layout := GetLayout e in
  let personalization := GetPersonalizationState e pm in
  let personalization := <["layout" := QMap layout]> personalization in
  SetPersonalizationState e pm personalization.

End DockableEditor.

(** ** Runs of the editor *)

(** The orientation a size gives. *)
Definition orientationOf (w h : Z) : Orientation :=
  if w >? h then Horizontal else Vertical.

(** No value is followed by itself. *)
Fixpoint noRepeat (l : list Orientation) : Prop :=
  match l with
  | a :: l' =>
      match l' with
      | b :: _ => a ≠ b ∧ noRepeat l'
      | [] => True
      end
  | [] => True
  end.

(** What can happen to an editor, one step at a time. *)
Inductive Step : Type :=
  | DoResize (w h : Z)
  | DoSetAdaptiveLayoutEnabled (enable : bool)
  | DoToggleAdaptiveLayout
  | DoUpdateAdaptiveLayout
  | DoSetLayout (state : QVariantMap)
  | DoEnableDockingSystem (pm : CPersonalizationManager)
  | DoLoadLayoutPersonalization (pm : CPersonalizationManager).

Section Runs.

Context {M H D C : Type}.
Context `{!CAbstractMenu.Ops M H, !CDockableContainer.Ops D H,
          !CEditorContent.Ops C}.

Definition step (e : CEditor M D C) (s : Step) : option (CEditor M D C) :=
  match s with
  | DoResize w h => Some (resizeEvent e w h)
  | DoSetAdaptiveLayoutEnabled enable => SetAdaptiveLayoutEnabled e enable
  | DoToggleAdaptiveLayout => toggle_adaptive_layout e
  | DoUpdateAdaptiveLayout => Some (UpdateAdaptiveLayout e)
  | DoSetLayout state => SetLayout e state
  | DoEnableDockingSystem pm => EnableDockingSystem e pm
  | DoLoadLayoutPersonalization pm => LoadLayoutPersonalization e pm
  end.

(** A run stops at the first step that does not complete. *)
Fixpoint run (e : CEditor M D C) (steps : list Step) : option (CEditor M D C) :=
  match steps with
  | [] => Some e
  | s :: steps' => e' ← step e s; run e' steps'
  end.

(** A run of resize events. *)
Definition resizeEvents (e : CEditor M D C) (sizes : list (Z * Z))
    : CEditor M D C :=
  foldl (λ e size, resizeEvent e size.1 size.2) e sizes.

(** The about-to-quit broadcast reaching the editors connected to it, in
    order, each with its own [CanQuit]. *)
Definition broadcastAboutToClose
    (editors : list (CEditor M D C * (list string → bool * list string)))
    (event : BroadcastEvent) : BroadcastEvent :=
  foldl (λ event ec, OnMainFrameAboutToClose ec.1 ec.2 event) event editors.

(** The fields the adaptive-layout controller reads and writes. *)
Definition adaptiveState (e : CEditor M D C)
    : bool * Orientation * Z * Z * bool * Orientation
      * option QCommandAction * list Orientation :=
  (SupportsAdaptiveLayout e, GetDefaultOrientation e, width e, height e,
   m_isAdaptiveLayoutEnabled e, m_currentOrientation e,
   m_pActionAdaptiveLayout e, signalAdaptiveLayoutChanged e).

(** The current orientation is the one the state calls for: that of the
    size while adaptive layout is in force, the default one otherwise. *)
Definition orientationSettled (e : CEditor M D C) : Prop :=
  m_currentOrientation e
  = if IsAdaptiveLayoutEnabled e then orientationOf (width e) (height e)
    else GetDefaultOrientation e.

(** The check mark of a checkable adaptive-layout action shows the flag. *)
Definition checkMarkInSync (e : CEditor M D C) : Prop :=
  ∀ pAction, m_pActionAdaptiveLayout e = Some pAction →
             checkable pAction = true →
             checked pAction = m_isAdaptiveLayoutEnabled e.

End Runs.

(** ** Object trees and the release-mouse filter *)

(** A [QObject] with its children; [isWidgetType] tells the [QWidget]s from
    the other objects. *)
#[warnings="-register-all"]
Inductive QObject : Type :=
  | Object (objectName : string) (isWidgetType : bool)
           (children : list QObject).

Definition objectName (o : QObject) : string :=
  match o with Object n _ _ => n end.

Definition isWidgetType (o : QObject) : bool :=
  match o with Object _ w _ => w end.

Definition children (o : QObject) : list QObject :=
  match o with Object _ _ cs => cs end.

(** [findChildren<QWidget*>()] with its default options: every widget below
    the object, at any depth, each child before what is below it. *)
Fixpoint findChildren (o : QObject) : list QObject :=
  match o with
  | Object _ _ cs =>
      (fix go (l : list QObject) : list QObject :=
         match l with
         | [] => []
         | c :: l' =>
             (if isWidgetType c then [c] else [])
             ++ findChildren c ++ go l'
         end) cs
  end.

(** The number of objects of a tree. *)
Fixpoint objects (o : QObject) : nat :=
  match o with
  | Object _ _ cs =>
      S ((fix go (l : list QObject) : nat :=
            match l with
            | [] => 0
            | c :: l' => objects c + go l'
            end%nat) cs)
  end.

(** [map] for a function that is told its argument is in the list. *)
Fixpoint map_in {A B : Type} (l : list A) : (∀ x, x ∈ l → B) → list B :=
  match l with
  | [] => λ _, []
  | x :: l' =>
      λ f, f x (list_elem_of_here x l')
           :: map_in l' (λ y Hy, f y (list_elem_of_further y x l' Hy))
  end.

Lemma QObject_induction (P : QObject → Prop) :
  (∀ n w cs, Forall P cs → P (Object n w cs)) → ∀ o, P o.
Proof.
  intros Hstep. fix IH 1. intros [n w cs]. apply Hstep.
  induction cs as [|c cs IHcs]; constructor; [apply IH|exact IHcs].
Qed.

Lemma findChildren_cons n w c cs :
  findChildren (Object n w (c :: cs))
  = (if isWidgetType c then [c] else [])
    ++ findChildren c ++ findChildren (Object n w cs).
Proof. reflexivity. Qed.

Lemma objects_cons n w c cs :
  objects (Object n w (c :: cs)) = (objects c + objects (Object n w cs))%nat.
Proof. simpl. lia. Qed.

(** What [findChildren] returns is smaller than the object: the recursion
    of [InstallReleaseMouseFilter] ends. *)
Lemma findChildren_smaller o d :
  d ∈ findChildren o → (objects d < objects o)%nat.
Proof.
  revert d. induction o as [n w cs IH] using QObject_induction.
  induction IH as [|c cs Hc Hcs IHcs]; intros d.
  - simpl. by intros ?%elem_of_nil.
  - rewrite findChildren_cons, objects_cons, !elem_of_app.
    intros [Hd|[Hd|Hd]].
    + destruct (isWidgetType c); [|by apply elem_of_nil in Hd].
      apply list_elem_of_singleton in Hd as ->.
      assert (0 < objects (Object n w cs))%nat by (simpl; lia). lia.
    + specialize (Hc d Hd). lia.
    + specialize (IHcs d Hd). lia.
Qed.

(** [CDockableEditor::InstallReleaseMouseFilter], as the objects
    [installEventFilter] is called on, in the order of the calls. *)
Equations InstallReleaseMouseFilter (object : QObject) : list QObject
    by wf (objects object) lt :=
  InstallReleaseMouseFilter object :=
    object
    :: concat (map_in (findChildren object)
                 (λ pChild Hin, InstallReleaseMouseFilter pChild)).
Next Obligation. by apply findChildren_smaller. Qed.

(** [below o d]: [d] is a child of [o], or of an object below [o]. *)
Inductive below (o : QObject) : QObject → Prop :=
  | below_child c : c ∈ children o → below o c
  | below_deeper c d : c ∈ children o → below c d → below o d.

(** Widgets nested one in the other, [n] deep below the outermost. *)
Fixpoint nestedWidgets (n : nat) : QObject :=
  match n with
  | O => Object "widget" true []
  | S n' => Object "widget" true [nestedWidgets n']
  end.

(** * Properties *)

(** ** Lists: removing the first occurrence *)

Section list_facts.
Context {A : Type} `{EqDecision A}.

Lemma indexOf_bounds (l : list A) x :
  -1 ≤ QList.indexOf l x < Z.of_nat (length l).
Proof.
  induction l as [|y l IH]; simpl; [lia|].
  destruct (decide (y = x)); [lia|].
  destruct (Z.ltb_spec (QList.indexOf l x) 0); lia.
Qed.

Lemma indexOf_absent (l : list A) x : x ∉ l → QList.indexOf l x = -1.
Proof.
  induction l as [|y l IH]; simpl; [done|].
  intros Hx. apply not_elem_of_cons in Hx as [Hne Hx].
  destruct (decide (y = x)); [congruence|].
  rewrite (IH Hx). done.
Qed.

Lemma indexOf_present (l : list A) x : x ∈ l → 0 ≤ QList.indexOf l x.
Proof.
  induction l as [|y l IH]; simpl; [by intros ?%elem_of_nil|].
  intros Hx. destruct (decide (y = x)); [lia|].
  apply elem_of_cons in Hx as [->|Hx]; [done|].
  specialize (IH Hx). destruct (Z.ltb_spec (QList.indexOf l x) 0); lia.
Qed.

(** What [AddRecentFile] does with [indexOf] and [removeAt] is to drop the
    first occurrence. *)
Lemma removeAt_indexOf (l : list A) x :
  (if QList.indexOf l x >? -1 then QList.removeAt l (QList.indexOf l x) else l)
  = dropFirst x l.
Proof.
  induction l as [|y l IH]; simpl.
  - done.
  - destruct (decide (y = x)) as [->|Hne]; simpl.
    + unfold QList.removeAt. simpl.
      destruct (Z.ltb_spec 0 (Z.pos (Pos.of_succ_nat (length l)))); [done|lia].
    + pose proof (indexOf_bounds l x) as Hb.
      destruct (Z.ltb_spec (QList.indexOf l x) 0) as [Hneg|Hpos].
      * assert (QList.indexOf l x = -1) as Hi by lia.
        rewrite Hi in IH. simpl in IH. by rewrite <- IH.
      * assert ((QList.indexOf l x >? -1) = true) as Hgt by lia.
        rewrite Hgt in IH.
        assert ((QList.indexOf l x + 1 >? -1) = true) as -> by lia.
        rewrite <- IH. unfold QList.removeAt.
        rewrite length_cons.
        assert ((0 <=? QList.indexOf l x + 1) = true) as -> by lia.
        assert ((0 <=? QList.indexOf l x) = true) as -> by lia.
        assert ((QList.indexOf l x + 1 <? Z.of_nat (S (length l))) = true)
          as ->.
        { apply Z.ltb_lt. lia. }
        assert ((QList.indexOf l x <? Z.of_nat (length l)) = true) as -> by lia.
        simpl.
        replace (Z.to_nat (QList.indexOf l x + 1))
          with (S (Z.to_nat (QList.indexOf l x))) by lia.
        done.
Qed.

Lemma dropFirst_absent x (l : list A) : x ∉ l → dropFirst x l = l.
Proof.
  induction l as [|y l IH]; simpl; [done|].
  intros [Hne Hx]%not_elem_of_cons.
  destruct (decide (y = x)); [congruence|]. by rewrite IH.
Qed.

Lemma length_dropFirst_present x (l : list A) :
  x ∈ l → S (length (dropFirst x l)) = length l.
Proof.
  induction l as [|y l IH]; simpl; [by intros ?%elem_of_nil|].
  intros Hx. destruct (decide (y = x)); [done|].
  apply elem_of_cons in Hx as [->|Hx]; [done|].
  simpl. by rewrite IH.
Qed.

(** Without duplicates, dropping the first occurrence drops them all. *)
Lemma dropFirst_NoDup x (l : list A) :
  NoDup l → dropFirst x l = filter (λ y, y ≠ x) l.
Proof.
  induction 1 as [|y l Hy Hnd IH]; simpl; [done|].
  destruct (decide (y = x)) as [->|Hne].
  - rewrite filter_cons_False by (intros Hc; by apply Hc).
    rewrite <- IH. symmetry. by apply dropFirst_absent.
  - rewrite filter_cons_True by done. by rewrite IH.
Qed.

(** Dropping an entry from the first [n+1] entries and keeping [n] of them
    is dropping it from the whole list and keeping [n]. *)
Lemma take_dropFirst_take x (l : list A) (n : nat) :
  take n (dropFirst x (take (S n) l)) = take n (dropFirst x l).
Proof.
  revert l. induction n as [|n IH]; intros l.
  - by rewrite !take_0.
  - destruct l as [|y l]; [done|].
    change (take (S (S n)) (y :: l)) with (y :: take (S n) l).
    simpl dropFirst. destruct (decide (y = x)).
    + by rewrite take_take, Nat.min_id.
    + simpl. by rewrite IH.
Qed.

Lemma mostRecentFirst_snoc (adds : list A) p :
  mostRecentFirst (adds ++ [p])
  = p :: filter (λ y, y ≠ p) (mostRecentFirst adds).
Proof. unfold mostRecentFirst. by rewrite foldl_app. Qed.

Lemma mostRecentFirst_NoDup (adds : list A) : NoDup (mostRecentFirst adds).
Proof.
  induction adds as [|p adds IH] using rev_ind.
  - constructor.
  - rewrite mostRecentFirst_snoc. constructor.
    + rewrite list_elem_of_filter. intros [Hne _]. by apply Hne.
    + by apply NoDup_filter.
Qed.

Lemma mostRecentFirst_elem_of (adds : list A) x :
  x ∈ mostRecentFirst adds ↔ x ∈ adds.
Proof.
  induction adds as [|p adds IH] using rev_ind.
  - done.
  - rewrite mostRecentFirst_snoc, elem_of_cons, list_elem_of_filter, IH.
    rewrite elem_of_app, list_elem_of_singleton.
    destruct (decide (x = p)); tauto.
Qed.

End list_facts.

(** ** The recent-files list *)

Lemma GetProjectProperty_SetProjectProperty pm editorName propName v :
  PersonalizationManager.GetProjectProperty
    (PersonalizationManager.SetProjectProperty pm editorName propName v)
    editorName propName = v.
Proof.
  unfold PersonalizationManager.GetProjectProperty,
    PersonalizationManager.SetProjectProperty, value; simpl.
  rewrite lookup_insert_eq. simpl. apply lookup_total_insert_eq.
Qed.

Section RecentFiles.
Context {M D C : Type}.
Implicit Types (e : CEditor M D C) (pm : CPersonalizationManager).

(** One call: the path goes to the front, its earlier entry is dropped,
    and at most [s_maxRecentFiles] entries are kept. *)
Lemma GetRecentFiles_AddRecentFile e pm filePath :
  GetRecentFiles e (AddRecentFile e pm filePath)
  = take 10 (filePath :: dropFirst filePath (GetRecentFiles e pm)).
Proof.
  unfold AddRecentFile.
  set (recent := GetRecentFiles e pm).
  rewrite removeAt_indexOf.
  unfold GetRecentFiles at 1, GetProjectProperty, SetProjectProperty.
  rewrite GetProjectProperty_SetProjectProperty. simpl QVariant.toStringList.
  unfold QList.push_front, QList.size, QList.mid,
    Private_EditorFramework.s_maxRecentFiles.
  destruct (Z.gtb_spec (Z.of_nat (length (filePath :: dropFirst filePath recent))) 10)
    as [Hlong|Hshort].
  - done.
  - rewrite take_ge; [done|lia].
Qed.

Lemma AddRecentFiles_snoc e pm filePaths filePath :
  AddRecentFiles e pm (filePaths ++ [filePath])
  = AddRecentFile e (AddRecentFiles e pm filePaths) filePath.
Proof. unfold AddRecentFiles. by rewrite foldl_app. Qed.

(** The list after a run of calls is the first ten of the paths added,
    each once, latest first. *)
Lemma GetRecentFiles_AddRecentFiles e pm filePaths :
  GetRecentFiles e pm = [] →
  GetRecentFiles e (AddRecentFiles e pm filePaths)
  = take 10 (mostRecentFirst filePaths).
Proof.
  intros Hempty. induction filePaths as [|p filePaths IH] using rev_ind.
  - done.
  - rewrite AddRecentFiles_snoc, GetRecentFiles_AddRecentFile, IH.
    rewrite mostRecentFirst_snoc.
    rewrite <- (dropFirst_NoDup p) by apply mostRecentFirst_NoDup.
    change (take 10 (?x :: ?l)) with (x :: take 9 l).
    by rewrite take_dropFirst_take.
Qed.

(** Re-adding a path the list holds: whatever the length of the stored
    list, the result is as long as the list, cut at ten. *)
Lemma length_AddRecentFile_present e pm filePath :
  filePath ∈ GetRecentFiles e pm →
  length (GetRecentFiles e (AddRecentFile e pm filePath))
  = (length (GetRecentFiles e pm) `min` 10)%nat.
Proof.
  intros Hin. rewrite GetRecentFiles_AddRecentFile.
  pose proof (length_dropFirst_present filePath _ Hin) as Hlen.
  rewrite length_take, length_cons. lia.
Qed.

End RecentFiles.

(** C1.  After any run of [AddRecentFile] calls that starts from an empty
    recent-files list, the list has at most ten entries, holds no path
    twice, and is ordered latest first: its head is the path of the last
    call, and as a whole it is the first ten of the distinct paths added,
    taken from the latest add backwards. *)
Theorem AddRecentFile_sequence {M D C : Type} (e : CEditor M D C)
    (pm : CPersonalizationManager) (filePaths : list string) :
  GetRecentFiles e pm = [] →
  let recent := GetRecentFiles e (AddRecentFiles e pm filePaths) in
  (length recent ≤ 10)%nat
  ∧ NoDup recent
  ∧ head recent = last filePaths
  ∧ recent = take 10 (mostRecentFirst filePaths).
Proof.
  intros Hempty recent. subst recent.
  rewrite (GetRecentFiles_AddRecentFiles e pm filePaths Hempty).
  repeat split.
  - rewrite length_take. lia.
  - eapply sublist_NoDup; [apply mostRecentFirst_NoDup|apply sublist_take].
  - destruct filePaths as [|p filePaths _] using rev_ind; [done|].
    by rewrite mostRecentFirst_snoc, last_snoc.
Qed.

Lemma AddRecentFile_sequence_witness :
  let filePaths := ["a.lyr"; "b.lyr"; "a.lyr"; "c.lyr"]%string in
  GetRecentFiles Plain.editor Plain.noPersonalization = []
  ∧ let recent :=
      GetRecentFiles Plain.editor
        (AddRecentFiles Plain.editor Plain.noPersonalization filePaths) in
    (length recent ≤ 10)%nat
    ∧ NoDup recent
    ∧ head recent = last filePaths
    ∧ recent = take 10 (mostRecentFirst filePaths).
Proof.
  intros filePaths. split; [reflexivity|].
  apply (AddRecentFile_sequence Plain.editor Plain.noPersonalization filePaths).
  reflexivity.
Defined.

(** Four adds, one of them repeated, and twelve adds that overflow the
    list. *)
Example AddRecentFiles_repeated :
  GetRecentFiles Plain.editor
    (AddRecentFiles Plain.editor Plain.noPersonalization
       ["a.lyr"; "b.lyr"; "a.lyr"; "c.lyr"]%string)
  = ["c.lyr"; "a.lyr"; "b.lyr"]%string.
Proof. reflexivity. Qed.

Example AddRecentFiles_overflow :
  GetRecentFiles Plain.editor
    (AddRecentFiles Plain.editor Plain.noPersonalization
       ["1"; "2"; "3"; "4"; "5"; "6"; "7"; "8"; "9"; "10"; "11"; "12"]%string)
  = ["12"; "11"; "10"; "9"; "8"; "7"; "6"; "5"; "4"; "3"]%string.
Proof. reflexivity. Qed.

(** C2.  On a recent-files list that already holds the path,
    [AddRecentFile] yields a list that starts with the path and is as long
    as before.  A recent-files list is one within the capacity of ten the
    data model gives it, as every list [AddRecentFile] writes is. *)
Theorem AddRecentFile_present {M D C : Type} (e : CEditor M D C)
    (pm : CPersonalizationManager) (filePath : string) :
  filePath ∈ GetRecentFiles e pm →
  (length (GetRecentFiles e pm) ≤ 10)%nat →
  head (GetRecentFiles e (AddRecentFile e pm filePath)) = Some filePath
  ∧ length (GetRecentFiles e (AddRecentFile e pm filePath))
    = length (GetRecentFiles e pm).
Proof.
  intros Hin Hcap. rewrite GetRecentFiles_AddRecentFile.
  pose proof (length_dropFirst_present filePath _ Hin) as Hlen.
  split; [done|].
  rewrite length_take, length_cons. lia.
Qed.

Lemma AddRecentFile_present_witness :
  let pm := AddRecentFiles Plain.editor Plain.noPersonalization
              ["a.lyr"; "b.lyr"; "c.lyr"]%string in
  head (GetRecentFiles Plain.editor (AddRecentFile Plain.editor pm "a.lyr"))
    = Some "a.lyr"%string
  ∧ length (GetRecentFiles Plain.editor (AddRecentFile Plain.editor pm "a.lyr"))
    = length (GetRecentFiles Plain.editor pm).
Proof.
  apply (AddRecentFile_present Plain.editor).
  - vm_compute. set_solver.
  - vm_compute. lia.
Defined.

(** ** Adaptive layout *)

Section AdaptiveLayout.
Context {M D C : Type}.
Implicit Types (e : CEditor M D C).

(** With adaptive layout off, [UpdateAdaptiveLayout] takes the default
    orientation and raises the signal with it, whatever the orientation
    was. *)
Lemma UpdateAdaptiveLayout_disabled e :
  IsAdaptiveLayoutEnabled e = false →
  UpdateAdaptiveLayout e
  = emit_signalAdaptiveLayoutChanged (GetDefaultOrientation e)
      (set_m_currentOrientation (GetDefaultOrientation e) e).
Proof. intros Hoff. unfold UpdateAdaptiveLayout. by rewrite Hoff. Qed.

(** With adaptive layout on, [UpdateAdaptiveLayout] compares the
    orientation of the widget's size with the current one. *)
Lemma UpdateAdaptiveLayout_enabled e :
  IsAdaptiveLayoutEnabled e = true →
  UpdateAdaptiveLayout e
  = let newOrientation := if width e >? height e then Horizontal else Vertical in
    if decide (newOrientation = m_currentOrientation e) then e
    else emit_signalAdaptiveLayoutChanged newOrientation
           (set_m_currentOrientation newOrientation e).
Proof. intros Hon. unfold UpdateAdaptiveLayout. by rewrite Hon. Qed.

(** [SetAdaptiveLayoutEnabled] runs to its end exactly when the flag
    already has the value or the action exists. *)
Lemma SetAdaptiveLayoutEnabled_is_Some e enable :
  is_Some (SetAdaptiveLayoutEnabled e enable)
  ↔ m_isAdaptiveLayoutEnabled e = enable ∨ is_Some (m_pActionAdaptiveLayout e).
Proof.
  unfold SetAdaptiveLayoutEnabled.
  destruct (decide (m_isAdaptiveLayoutEnabled e = enable)) as [Heq|Hne].
  - split; [by left|by eexists].
  - simpl. destruct (m_pActionAdaptiveLayout e) as [a|]; simpl.
    + split; [by right; eexists|by eexists].
    + split; [by intros [? ?]|]. by intros [?|[? ?]].
Qed.

(** Neither [SetAdaptiveLayoutEnabled] nor [UpdateAdaptiveLayout] touches
    the docking registry or the editor content. *)
Lemma UpdateAdaptiveLayout_frame e :
  m_dockingRegistry (UpdateAdaptiveLayout e) = m_dockingRegistry e
  ∧ m_pEditorContent (UpdateAdaptiveLayout e) = m_pEditorContent e
  ∧ m_isAdaptiveLayoutEnabled (UpdateAdaptiveLayout e)
    = m_isAdaptiveLayoutEnabled e.
Proof.
  unfold UpdateAdaptiveLayout.
  destruct (negb (IsAdaptiveLayoutEnabled e)); [done|].
  simpl. by case_decide.
Qed.

Lemma SetAdaptiveLayoutEnabled_frame e enable e' :
  SetAdaptiveLayoutEnabled e enable = Some e' →
  m_dockingRegistry e' = m_dockingRegistry e
  ∧ m_pEditorContent e' = m_pEditorContent e
  ∧ m_isAdaptiveLayoutEnabled e' = enable.
Proof.
  unfold SetAdaptiveLayoutEnabled.
  destruct (decide (m_isAdaptiveLayoutEnabled e = enable)) as [Heq|Hne].
  - by intros [= <-].
  - simpl. destruct (m_pActionAdaptiveLayout e) as [a|]; simpl; [|done].
    intros [= <-].
    by destruct (UpdateAdaptiveLayout_frame
      (set_m_pActionAdaptiveLayout (Some (setChecked a enable))
         (set_m_isAdaptiveLayoutEnabled enable e))) as (-> & -> & ->).
Qed.

(** Switching the flag off runs the disabled branch of
    [UpdateAdaptiveLayout]. *)
Lemma SetAdaptiveLayoutEnabled_off e pAction :
  m_isAdaptiveLayoutEnabled e = true →
  m_pActionAdaptiveLayout e = Some pAction →
  ∃ e', SetAdaptiveLayoutEnabled e false = Some e'
    ∧ m_isAdaptiveLayoutEnabled e' = false
    ∧ m_pActionAdaptiveLayout e' = Some (setChecked pAction false)
    ∧ m_currentOrientation e' = GetDefaultOrientation e
    ∧ signalAdaptiveLayoutChanged e'
      = signalAdaptiveLayoutChanged e ++ [GetDefaultOrientation e].
Proof.
  intros Hon Hact. unfold SetAdaptiveLayoutEnabled.
  destruct (decide (m_isAdaptiveLayoutEnabled e = false)) as [Hoff|_];
    [congruence|].
  simpl. rewrite Hact. simpl. eexists. split; [reflexivity|].
  rewrite UpdateAdaptiveLayout_disabled.
  - done.
  - unfold IsAdaptiveLayoutEnabled. simpl. apply andb_false_r.
Qed.

(** The toggle action on an editor with adaptive layout in force switches
    it off, with the same reset and signal. *)
Lemma toggle_adaptive_layout_off e pAction :
  IsAdaptiveLayoutEnabled e = true →
  m_pActionAdaptiveLayout e = Some pAction →
  ∃ e', toggle_adaptive_layout e = Some e'
    ∧ IsAdaptiveLayoutEnabled e' = false
    ∧ m_currentOrientation e' = GetDefaultOrientation e
    ∧ signalAdaptiveLayoutChanged e'
      = signalAdaptiveLayoutChanged e ++ [GetDefaultOrientation e].
Proof.
  intros Hon Hact. unfold toggle_adaptive_layout. rewrite Hon. simpl negb.
  apply andb_true_iff in Hon as [_ Hflag].
  destruct (SetAdaptiveLayoutEnabled_off e pAction Hflag Hact)
    as (e' & -> & Hoff & _ & Ho & Hs).
  exists e'. split; [done|]. split; [|done].
  unfold IsAdaptiveLayoutEnabled. rewrite Hoff. apply andb_false_r.
Qed.

End AdaptiveLayout.

(** C3.  Switching adaptive layout off, on an editor that has its
    adaptive-layout action, completes; afterwards the flag is off, the
    current orientation is the default orientation the editor declares, and
    the signal has been raised once more, with that default.  Nothing is
    assumed about the orientation before the call, so this holds as well
    when the editor already had the default orientation. *)
Theorem SetAdaptiveLayoutEnabled_disable {M D C : Type} (e : CEditor M D C)
    (pAction : QCommandAction) :
  m_isAdaptiveLayoutEnabled e = true →
  m_pActionAdaptiveLayout e = Some pAction →
  ∃ e', SetAdaptiveLayoutEnabled e false = Some e'
    ∧ m_isAdaptiveLayoutEnabled e' = false
    ∧ m_currentOrientation e' = GetDefaultOrientation e
    ∧ signalAdaptiveLayoutChanged e'
      = signalAdaptiveLayoutChanged e ++ [GetDefaultOrientation e].
Proof.
  intros Hon Hact.
  destruct (SetAdaptiveLayoutEnabled_off e pAction Hon Hact)
    as (e' & He' & Hoff & _ & Ho & Hs).
  by exists e'.
Qed.

Lemma SetAdaptiveLayoutEnabled_disable_witness :
  ∃ e', SetAdaptiveLayoutEnabled Plain.editor false = Some e'
    ∧ m_isAdaptiveLayoutEnabled e' = false
    ∧ m_currentOrientation e' = Horizontal
    ∧ signalAdaptiveLayoutChanged e' = [Horizontal].
Proof.
  apply (SetAdaptiveLayoutEnabled_disable Plain.editor
           {| command := "editor.toggle_adaptive_layout";
              checkable := true; checked := true |});
    reflexivity.
Defined.

(** C4.  With adaptive layout enabled, a resize raises the signal exactly
    when the orientation of the new size differs from the current one, and
    then once, with the new orientation.  In particular, after a resize to
    100 x 200 the orientation is vertical, a resize to 200 x 100 then raises
    the signal once with the horizontal orientation, and a further resize to
    200 x 100 raises nothing. *)
Theorem resizeEvent_notifies {M D C : Type} (e : CEditor M D C) (w h : Z) :
  IsAdaptiveLayoutEnabled e = true →
  let newOrientation := if w >? h then Horizontal else Vertical in
  (newOrientation ≠ m_currentOrientation e →
     signalAdaptiveLayoutChanged (resizeEvent e w h)
     = signalAdaptiveLayoutChanged e ++ [newOrientation])
  ∧ (newOrientation = m_currentOrientation e →
     signalAdaptiveLayoutChanged (resizeEvent e w h)
     = signalAdaptiveLayoutChanged e)
  ∧ (let e1 := resizeEvent e 100 200 in
     let e2 := resizeEvent e1 200 100 in
     let e3 := resizeEvent e2 200 100 in
     m_currentOrientation e1 = Vertical
     ∧ signalAdaptiveLayoutChanged e2
       = signalAdaptiveLayoutChanged e1 ++ [Horizontal]
     ∧ signalAdaptiveLayoutChanged e3 = signalAdaptiveLayoutChanged e2).
Proof.
  intros Hon newOrientation.
  assert (Hresize : ∀ (e0 : CEditor M D C) w0 h0,
    IsAdaptiveLayoutEnabled e0 = true →
    resizeEvent e0 w0 h0
    = let o := if w0 >? h0 then Horizontal else Vertical in
      if decide (o = m_currentOrientation e0) then set_size w0 h0 e0
      else emit_signalAdaptiveLayoutChanged o
             (set_m_currentOrientation o (set_size w0 h0 e0))).
  { intros e0 w0 h0 H0. unfold resizeEvent.
    assert (IsAdaptiveLayoutEnabled (set_size w0 h0 e0) = true) as Hon' by done.
    rewrite Hon'. simpl negb. cbv iota.
    by rewrite UpdateAdaptiveLayout_enabled. }
  split; [|split].
  - intros Hne. rewrite Hresize by done. simpl.
    fold newOrientation. by destruct (decide (newOrientation = _)).
  - intros Heq. rewrite Hresize by done. simpl.
    fold newOrientation. by destruct (decide (newOrientation = _)).
  - rewrite (Hresize e 100 200) by done.
    change (100 >? 200) with false. cbv zeta.
    destruct (decide (Vertical = m_currentOrientation e)) as [Hv|Hv].
    + rewrite (Hresize (set_size 100 200 e) 200 100) by done.
      change (200 >? 100) with true. cbv zeta. simpl m_currentOrientation.
      rewrite <- Hv.
      destruct (decide (Horizontal = Vertical)) as [?|_]; [done|].
      rewrite Hresize by done.
      change (200 >? 100) with true. cbv zeta. simpl m_currentOrientation.
      by destruct (decide (Horizontal = Horizontal)).
    + rewrite (Hresize _ 200 100) by done.
      change (200 >? 100) with true. cbv zeta. simpl m_currentOrientation.
      destruct (decide (Horizontal = Vertical)) as [?|_]; [done|].
      rewrite Hresize by done.
      change (200 >? 100) with true. cbv zeta. simpl m_currentOrientation.
      by destruct (decide (Horizontal = Horizontal)).
Qed.

Lemma resizeEvent_notifies_witness :
  let e1 := resizeEvent Plain.editor 100 200 in
  let e2 := resizeEvent e1 200 100 in
  let e3 := resizeEvent e2 200 100 in
  m_currentOrientation e1 = Vertical
  ∧ signalAdaptiveLayoutChanged e2
    = signalAdaptiveLayoutChanged e1 ++ [Horizontal]
  ∧ signalAdaptiveLayoutChanged e3 = signalAdaptiveLayoutChanged e2.
Proof.
  apply (resizeEvent_notifies Plain.editor 0 0). reflexivity.
Defined.

(** C5.  With adaptive layout enabled, [UpdateAdaptiveLayout] leaves the
    editor with the horizontal orientation when the width exceeds the
    height and with the vertical one otherwise; a square widget is
    vertical. *)
Theorem UpdateAdaptiveLayout_orientation {M D C : Type} (e : CEditor M D C) :
  IsAdaptiveLayoutEnabled e = true →
  (height e < width e →
     m_currentOrientation (UpdateAdaptiveLayout e) = Horizontal)
  ∧ (width e ≤ height e →
     m_currentOrientation (UpdateAdaptiveLayout e) = Vertical)
  ∧ (width e = height e →
     m_currentOrientation (UpdateAdaptiveLayout e) = Vertical).
Proof.
  intros Hon. rewrite UpdateAdaptiveLayout_enabled by done. cbv zeta.
  destruct (Z.gtb_spec (width e) (height e)) as [Hgt|Hle];
    (split; [|split]); intros Hwh; try lia;
    by case_decide.
Qed.

Lemma UpdateAdaptiveLayout_orientation_witness :
  m_currentOrientation (UpdateAdaptiveLayout (set_size 300 300 Plain.editor))
  = Vertical.
Proof.
  apply (UpdateAdaptiveLayout_orientation (set_size 300 300 Plain.editor));
    reflexivity.
Defined.

(** C10.  [SetAdaptiveLayoutEnabled] called with the value the flag already
    has returns the editor as it was: the flag, the current orientation, the
    action with its check mark and the signals raised are all the same. *)
Theorem SetAdaptiveLayoutEnabled_same {M D C : Type} (e : CEditor M D C) :
  SetAdaptiveLayoutEnabled e (m_isAdaptiveLayoutEnabled e) = Some e.
Proof.
  unfold SetAdaptiveLayoutEnabled. by case_decide.
Qed.

(** ** Layout save and restore *)

Section Layout.
Context {M H D C : Type}.
Context `{!CDockableContainer.Ops D H, !CEditorContent.Ops C}.
Implicit Types (e : CEditor M D C) (state : QVariantMap).

Lemma contains_lookup state k : contains state k = false ↔ state !! k = None.
Proof.
  unfold contains. rewrite bool_decide_eq_false, <- eq_None_not_Some. done.
Qed.

Lemma value_missing state k : state !! k = None → value state k = QInvalid.
Proof. intros Hk. unfold value. by rewrite lookup_total_alt, Hk. Qed.

Lemma value_present state k v : state !! k = Some v → value state k = v.
Proof. intros Hk. unfold value. by rewrite lookup_total_alt, Hk. Qed.

Lemma SetLayout_unfold e state :
  SetLayout e state
  = e1 ← (if contains state "adaptiveLayout"
          then SetAdaptiveLayoutEnabled e
                 (QVariant.toBool (value state "adaptiveLayout"))
          else Some e);
    Some (restoreWidgets e1 state).
Proof. reflexivity. Qed.

Lemma restoreWidgets_content e state :
  m_pEditorContent (restoreWidgets e state)
  = CEditorContent.SetState (m_pEditorContent e)
      (QVariant.toMap (value state "editorContent")).
Proof.
  unfold restoreWidgets. destruct (m_dockingRegistry e); [|done].
  by destruct (contains state "dockingState").
Qed.

Lemma restoreWidgets_registry e state :
  m_dockingRegistry (restoreWidgets e state)
  = match m_dockingRegistry e, state !! "dockingState" with
    | Some registry, Some v =>
        Some (CDockableContainer.SetState registry (QVariant.toMap v))
    | other, _ => other
    end.
Proof.
  unfold restoreWidgets. destruct (m_dockingRegistry e) eqn:Hreg; [|done].
  destruct (state !! "dockingState") as [v|] eqn:Hk.
  - assert (contains state "dockingState" = true) as ->.
    { unfold contains. apply bool_decide_eq_true. by eexists. }
    simpl. by rewrite (value_present _ _ _ Hk).
  - apply contains_lookup in Hk. rewrite Hk. simpl. done.
Qed.

Lemma restoreWidgets_frame e state :
  m_isAdaptiveLayoutEnabled (restoreWidgets e state) = m_isAdaptiveLayoutEnabled e
  ∧ m_currentOrientation (restoreWidgets e state) = m_currentOrientation e
  ∧ m_pActionAdaptiveLayout (restoreWidgets e state) = m_pActionAdaptiveLayout e
  ∧ signalAdaptiveLayoutChanged (restoreWidgets e state)
    = signalAdaptiveLayoutChanged e.
Proof.
  unfold restoreWidgets. destruct (m_dockingRegistry e); [|done].
  by destruct (contains state "dockingState").
Qed.

End Layout.

(** [SetLayout] and the keys a state lacks, for any collaborators.
    [SetLayout] runs to its end when the [adaptiveLayout] key is missing,
    when its value is the one the flag has, or when the adaptive-layout
    action exists.  Then: a missing [adaptiveLayout] key leaves the flag,
    the current orientation, the action and the signals raised as they
    were; a missing [dockingState] key leaves the docking registry as it
    was; the call on the editor content is made in every case, with the
    empty map under a missing [editorContent] key. *)
Theorem SetLayout_missing_keys {M H D C : Type}
    `{!CDockableContainer.Ops D H, !CEditorContent.Ops C}
    (e : CEditor M D C) (state : QVariantMap) :
  state !! "adaptiveLayout" = None
  ∨ m_isAdaptiveLayoutEnabled e = QVariant.toBool (value state "adaptiveLayout")
  ∨ is_Some (m_pActionAdaptiveLayout e) →
  ∃ e', SetLayout e state = Some e'
    ∧ (state !! "adaptiveLayout" = None →
         m_isAdaptiveLayoutEnabled e' = m_isAdaptiveLayoutEnabled e
         ∧ m_currentOrientation e' = m_currentOrientation e
         ∧ m_pActionAdaptiveLayout e' = m_pActionAdaptiveLayout e
         ∧ signalAdaptiveLayoutChanged e' = signalAdaptiveLayoutChanged e)
    ∧ (state !! "dockingState" = None →
         m_dockingRegistry e' = m_dockingRegistry e)
    ∧ m_pEditorContent e'
      = CEditorContent.SetState (m_pEditorContent e)
          (QVariant.toMap (value state "editorContent"))
    ∧ (state !! "editorContent" = None →
         m_pEditorContent e'
         = CEditorContent.SetState (m_pEditorContent e) ∅).
Proof.
  intros Hruns. rewrite SetLayout_unfold.
  destruct (contains state "adaptiveLayout") eqn:Hkey.
  - assert (is_Some (SetAdaptiveLayoutEnabled e
              (QVariant.toBool (value state "adaptiveLayout")))) as [e1 He1].
    { apply SetAdaptiveLayoutEnabled_is_Some.
      destruct Hruns as [Hnone|[?|?]]; [|by left|by right].
      apply contains_lookup in Hnone. congruence. }
    rewrite He1. simpl. eexists. split; [reflexivity|].
    destruct (SetAdaptiveLayoutEnabled_frame _ _ _ He1) as (Hreg & Hcont & _).
    split; [|split; [|split]].
    + intros Hnone. apply contains_lookup in Hnone. congruence.
    + intros Hnone. rewrite restoreWidgets_registry, Hnone, Hreg.
      by destruct (m_dockingRegistry e).
    + by rewrite restoreWidgets_content, Hcont.
    + intros Hnone.
      by rewrite restoreWidgets_content, Hcont, (value_missing _ _ Hnone).
  - simpl. eexists. split; [reflexivity|].
    split; [|split; [|split]].
    + intros _. apply restoreWidgets_frame.
    + intros Hnone. rewrite restoreWidgets_registry, Hnone.
      by destruct (m_dockingRegistry e).
    + apply restoreWidgets_content.
    + intros Hnone.
      by rewrite restoreWidgets_content, (value_missing _ _ Hnone).
Qed.

Lemma SetLayout_missing_keys_witness :
  ∃ e', SetLayout Plain.dockedEditor ∅ = Some e'
    ∧ m_isAdaptiveLayoutEnabled e' = true
    ∧ m_dockingRegistry e' = m_dockingRegistry Plain.dockedEditor
    ∧ m_pEditorContent e'
      = CEditorContent.SetState (m_pEditorContent Plain.dockedEditor) ∅.
Proof.
  destruct (SetLayout_missing_keys Plain.dockedEditor ∅) as (e' & He' & Ha & Hd & _ & Hc).
  - left. reflexivity.
  - exists e'. split; [exact He'|]. split; [|split].
    + apply (proj1 (Ha eq_refl)).
    + apply (Hd eq_refl).
    + apply (Hc eq_refl).
Defined.

(** [SetLayout] on the empty state, step by step. *)
Lemma SetLayout_empty_state_run {M H D C : Type}
    `{!CDockableContainer.Ops D H, !CEditorContent.Ops C}
    (e : CEditor M D C) :
  SetLayout e ∅
  = Some (set_m_pEditorContent
            (CEditorContent.SetState (m_pEditorContent e) ∅) e).
Proof.
  rewrite SetLayout_unfold.
  assert (contains (∅ : QVariantMap) "adaptiveLayout" = false) as ->
    by (by apply contains_lookup).
  simpl. unfold restoreWidgets.
  assert (contains (∅ : QVariantMap) "dockingState" = false) as ->
    by (by apply contains_lookup).
  rewrite (value_missing ∅ "editorContent") by done.
  cbn [QVariant.toMap]. by destruct (m_dockingRegistry e).
Qed.


(** The same run with the plain collaborators: the toolbar state the
    content held is gone. *)
Example SetLayout_empty_state_plain :
  ∃ e', SetLayout Plain.editor ∅ = Some e'
    ∧ CEditorContent.GetState (m_pEditorContent Plain.editor)
      = {[ "isLocked"%string := QBool true ]}
    ∧ CEditorContent.GetState (m_pEditorContent e') = ∅.
Proof.
  eexists. split; [apply (SetLayout_empty_state_run Plain.editor)|].
  split; reflexivity.
Qed.

(** C7, as amended.  On an editor whose flag is already on or whose
    adaptive-layout action exists, and with a docking registry and an editor
    content that report the empty state after being given it, [SetLayout]
    with [{dockingState: {}, editorContent: {}, adaptiveLayout: true}]
    completes and [GetLayout] then holds [adaptiveLayout] true and the empty
    [editorContent] map; it holds the empty [dockingState] map when the
    editor has a docking registry and no [dockingState] key when it has
    none. *)
Theorem SetLayout_GetLayout_example {M H D C : Type}
    `{!CDockableContainer.Ops D H, !CEditorContent.Ops C}
    (e : CEditor M D C) :
  m_isAdaptiveLayoutEnabled e = true ∨ is_Some (m_pActionAdaptiveLayout e) →
  (∀ c : C, CEditorContent.GetState (CEditorContent.SetState c ∅) = ∅) →
  (∀ d : D, CDockableContainer.GetState (CDockableContainer.SetState d ∅) = ∅) →
  ∃ e', SetLayout e exampleLayout = Some e'
    ∧ GetLayout e' !! "adaptiveLayout" = Some (QBool true)
    ∧ GetLayout e' !! "editorContent" = Some (QMap ∅)
    ∧ (is_Some (m_dockingRegistry e) →
         GetLayout e' !! "dockingState" = Some (QMap ∅))
    ∧ (m_dockingRegistry e = None → GetLayout e' !! "dockingState" = None).
Proof.
  intros Hruns Hcontent Hdock. rewrite SetLayout_unfold.
  assert (contains exampleLayout "adaptiveLayout" = true) as -> by done.
  assert (value exampleLayout "adaptiveLayout" = QBool true) as -> by done.
  simpl QVariant.toBool.
  assert (is_Some (SetAdaptiveLayoutEnabled e true)) as [e1 He1].
  { by apply SetAdaptiveLayoutEnabled_is_Some. }
  rewrite He1. simpl. eexists. split; [reflexivity|].
  destruct (SetAdaptiveLayoutEnabled_frame _ _ _ He1) as (Hreg & Hcont & Hflag).
  assert (value exampleLayout "editorContent" = QMap ∅) as Hv by done.
  assert (exampleLayout !! "dockingState" = Some (QMap ∅)) as Hd by done.
  unfold GetLayout.
  rewrite (proj1 (restoreWidgets_frame e1 exampleLayout)), Hflag.
  rewrite restoreWidgets_content, restoreWidgets_registry, Hv, Hd, Hreg, Hcont.
  cbn [QVariant.toMap]. rewrite Hcontent.
  split; [by rewrite lookup_insert_eq|].
  split; [by rewrite lookup_insert_ne, lookup_insert_eq|].
  split.
  - intros [d Hsome]. rewrite Hsome.
    do 2 (rewrite lookup_insert_ne by done).
    by rewrite lookup_insert_eq, Hdock.
  - intros ->. by do 2 (rewrite lookup_insert_ne by done).
Qed.

Lemma SetLayout_GetLayout_example_witness :
  ∃ e', SetLayout Plain.dockedEditor exampleLayout = Some e'
    ∧ GetLayout e' !! "adaptiveLayout" = Some (QBool true)
    ∧ GetLayout e' !! "editorContent" = Some (QMap ∅)
    ∧ GetLayout e' !! "dockingState" = Some (QMap ∅).
Proof.
  destruct (SetLayout_GetLayout_example Plain.dockedEditor)
    as (e' & He' & Ha & Hc & Hd & _).
  - left. reflexivity.
  - intros c. reflexivity.
  - intros d. reflexivity.
  - exists e'. split; [exact He'|]. split; [exact Ha|]. split; [exact Hc|].
    apply Hd. eexists. reflexivity.
Defined.

(** Without a docking registry [GetLayout] has no [dockingState] entry,
    whatever the collaborators are. *)
Lemma GetLayout_no_registry {M H D C : Type}
    `{!CDockableContainer.Ops D H, !CEditorContent.Ops C} (e : CEditor M D C) :
  m_dockingRegistry e = None → GetLayout e !! "dockingState" = None.
Proof.
  intros Hreg. unfold GetLayout. rewrite Hreg.
  by do 2 (rewrite lookup_insert_ne by done).
Qed.

(** C7 as stated fails: an editor that never enabled its docking system
    restores the example state and then reports a layout without any
    [dockingState] entry. *)
Lemma SetLayout_GetLayout_counterexample :
  exampleLayout !! "dockingState" = Some (QMap ∅)
  ∧ ∃ e', SetLayout Plain.editor exampleLayout = Some e'
      ∧ GetLayout e' !! "dockingState" = None.
Proof.
  split; [done|]. eexists. split; [reflexivity|]. done.
Qed.

(** ** Menus and docking *)

(** C8.  For a menu item whose descriptor entry is not a menu node (or that
    has no entry), [GetMenuName] is the empty string and [GetMenu] returns
    the null pointer. *)
Theorem GetMenu_not_a_menu {M H D C : Type} `{!CAbstractMenu.Ops M H}
    (e : CEditor M D C) (menuItem : MenuItems) :
  (∀ i, MenuDesc.find menuItem (m_pMenuDesc e) = Some i →
        MenuDesc.isMenu i = false) →
  MenuDesc.GetMenuName (m_pMenuDesc e) menuItem = ""%string
  ∧ GetMenu e menuItem = None.
Proof.
  intros Hentry.
  assert (MenuDesc.GetMenuName (m_pMenuDesc e) menuItem = ""%string) as Hname.
  { unfold MenuDesc.GetMenuName.
    destruct (MenuDesc.find menuItem (m_pMenuDesc e)) as [[]|] eqn:Hfind;
      try done.
    by specialize (Hentry _ eq_refl). }
  split; [done|]. unfold GetMenu. by rewrite Hname.
Qed.

Lemma GetMenu_not_a_menu_witness :
  MenuDesc.GetMenuName (m_pMenuDesc Plain.editor) SaveAs = ""%string
  ∧ GetMenu Plain.editor SaveAs = None.
Proof.
  apply (GetMenu_not_a_menu Plain.editor SaveAs).
  intros i Hi. vm_compute in Hi. injection Hi as <-. reflexivity.
Defined.

(** In the descriptor [InitMenuDesc] declares, the entries with a name are
    the seven menus. *)
Lemma InitMenuDesc_GetMenuName ePriorities_Append (menuItem : MenuItems) :
  MenuDesc.GetMenuName (InitMenuDesc ePriorities_Append) menuItem
  = match menuItem with
    | FileMenu => "File" | RecentFiles => "Recent Files" | EditMenu => "Edit"
    | ViewMenu => "View" | ToolBarMenu => "Toolbars" | WindowMenu => "Window"
    | HelpMenu => "Help"
    | _ => ""
    end%string.
Proof. by destruct menuItem. Qed.

(** C9.  Once the docking registry exists, [EnableDockingSystem] returns
    with the editor as it was: the registry, the menu and the editor content
    are the same. *)
Theorem EnableDockingSystem_again {M H D C : Type}
    `{!CAbstractMenu.Ops M H, !CDockableContainer.Ops D H, !CEditorContent.Ops C}
    (e : CEditor M D C) (pm : CPersonalizationManager) (registry : D) :
  m_dockingRegistry e = Some registry →
  EnableDockingSystem e pm = Some e.
Proof. intros Hreg. unfold EnableDockingSystem. by rewrite Hreg. Qed.

Lemma EnableDockingSystem_again_witness :
  EnableDockingSystem Plain.dockedEditor Plain.noPersonalization
  = Some Plain.dockedEditor.
Proof.
  apply (EnableDockingSystem_again Plain.dockedEditor Plain.noPersonalization
           {| Plain.dockMenu := Some "Window"%string; Plain.dockState := ∅ |}).
  reflexivity.
Defined.

(** A second call after a first one that found no registry changes
    nothing either. *)
Lemma EnableDockingSystem_twice {M H D C : Type}
    `{!CAbstractMenu.Ops M H, !CDockableContainer.Ops D H, !CEditorContent.Ops C}
    (e e' : CEditor M D C) (pm pm' : CPersonalizationManager) :
  EnableDockingSystem e pm = Some e' →
  is_Some (m_dockingRegistry e') ∧ EnableDockingSystem e' pm' = Some e'.
Proof.
  unfold EnableDockingSystem at 1.
  destruct (m_dockingRegistry e) as [d|] eqn:Hreg.
  - intros [= <-]. split; [by eexists|].
    unfold EnableDockingSystem. by rewrite Hreg.
  - destruct (AddToMenu e WindowMenu) as [e1|]; simpl; [|done].
    intros [= <-]. split; [by eexists|]. done.
Qed.

(** * Further properties *)

(** ** More on the recent-files list *)

Lemma SetProjectProperty_twice pm editorName propName v w :
  PersonalizationManager.SetProjectProperty
    (PersonalizationManager.SetProjectProperty pm editorName propName v)
    editorName propName w
  = PersonalizationManager.SetProjectProperty pm editorName propName w.
Proof.
  unfold PersonalizationManager.SetProjectProperty; simpl. f_equal.
  rewrite lookup_insert_eq. simpl. by rewrite !insert_insert_eq.
Qed.

Lemma take_10_cons_dropFirst_again {A : Type} `{EqDecision A} (p : A) l :
  take 10 (p :: dropFirst p (take 10 (p :: dropFirst p l)))
  = take 10 (p :: dropFirst p l).
Proof.
  change (take 10 (p :: dropFirst p l)) with (p :: take 9 (dropFirst p l)).
  simpl dropFirst. destruct (decide (p = p)); [|done].
  change (take 10 (p :: ?x)) with (p :: take 9 x).
  by rewrite take_take, Nat.min_id.
Qed.

Lemma dropFirst_sublist {A : Type} `{EqDecision A} (p : A) l :
  dropFirst p l `sublist_of` l.
Proof.
  induction l as [|y l IH]; simpl; [done|].
  destruct (decide (y = p)).
  - by apply sublist_cons.
  - by apply sublist_skip.
Qed.

Section RecentFilesMore.
Context {M D C : Type}.
Implicit Types (e : CEditor M D C) (pm : CPersonalizationManager).

(** What one call writes. *)
Lemma AddRecentFile_writes e pm filePath :
  AddRecentFile e pm filePath
  = SetProjectProperty e pm "Recent Files"
      (QStrList (take 10 (filePath :: dropFirst filePath (GetRecentFiles e pm)))).
Proof.
  pose proof (GetRecentFiles_AddRecentFile e pm filePath) as Hget.
  unfold AddRecentFile in *.
  set (recent := if QList.size _ >? _ then _ else _) in *.
  unfold GetRecentFiles at 1, GetProjectProperty, SetProjectProperty in Hget.
  rewrite GetProjectProperty_SetProjectProperty in Hget.
  simpl in Hget. by rewrite Hget.
Qed.

End RecentFilesMore.

(** X1.  Adding the same path twice in a row leaves the personalization
    store exactly as adding it once does, whatever was stored before. *)
Theorem AddRecentFile_idempotent {M D C : Type} (e : CEditor M D C)
    (pm : CPersonalizationManager) (filePath : string) :
  AddRecentFile e (AddRecentFile e pm filePath) filePath
  = AddRecentFile e pm filePath.
Proof.
  rewrite (AddRecentFile_writes e (AddRecentFile e pm filePath)).
  rewrite GetRecentFiles_AddRecentFile, take_10_cons_dropFirst_again.
  rewrite AddRecentFile_writes. unfold SetProjectProperty.
  apply SetProjectProperty_twice.
Qed.

(** X2.  Adding a path the list does not hold: a list of fewer than ten
    entries keeps them all behind the new path; a list of exactly ten loses
    its last entry, the one added longest ago, and keeps the other nine in
    their order. *)
Theorem AddRecentFile_evicts_oldest {M D C : Type} (e : CEditor M D C)
    (pm : CPersonalizationManager) (filePath : string) :
  filePath ∉ GetRecentFiles e pm →
  ((length (GetRecentFiles e pm) < 10)%nat →
     GetRecentFiles e (AddRecentFile e pm filePath)
     = filePath :: GetRecentFiles e pm)
  ∧ (∀ kept oldest,
       GetRecentFiles e pm = kept ++ [oldest] →
       length (GetRecentFiles e pm) = 10%nat →
       GetRecentFiles e (AddRecentFile e pm filePath) = filePath :: kept).
Proof.
  intros Hnew. rewrite GetRecentFiles_AddRecentFile, dropFirst_absent by done.
  change (take 10 (filePath :: ?l)) with (filePath :: take 9 l).
  split.
  - intros Hlen. rewrite take_ge; [done|lia].
  - intros kept oldest -> Hlen. rewrite length_app in Hlen. simpl in Hlen.
    rewrite take_app_length'; [done|lia].
Qed.

Lemma AddRecentFile_evicts_oldest_witness :
  let paths := ["1"; "2"; "3"; "4"; "5"; "6"; "7"; "8"; "9"; "10"]%string in
  let pm := AddRecentFiles Plain.editor Plain.noPersonalization paths in
  GetRecentFiles Plain.editor (AddRecentFile Plain.editor pm "11")
  = ["11"; "10"; "9"; "8"; "7"; "6"; "5"; "4"; "3"; "2"]%string.
Proof.
  intros paths pm.
  assert (Hnew : "11"%string ∉ GetRecentFiles Plain.editor pm).
  { assert (GetRecentFiles Plain.editor pm
            = ["10"; "9"; "8"; "7"; "6"; "5"; "4"; "3"; "2"; "1"]%string)
      as -> by reflexivity.
    apply (bool_decide_unpack _). vm_compute. exact I. }
  apply (proj2 (AddRecentFile_evicts_oldest Plain.editor pm "11" Hnew)
           ["10"; "9"; "8"; "7"; "6"; "5"; "4"; "3"; "2"]%string "1"%string);
    reflexivity.
Defined.

(** X3.  Whatever value the store holds for the recent files, one call
    leaves a list of at most ten entries that starts with the path; the
    entries behind it are entries of the old list in their old order; and a
    list without duplicates stays without duplicates. *)
Theorem AddRecentFile_step {M D C : Type} (e : CEditor M D C)
    (pm : CPersonalizationManager) (filePath : string) :
  let recent := GetRecentFiles e (AddRecentFile e pm filePath) in
  (length recent ≤ 10)%nat
  ∧ head recent = Some filePath
  ∧ tail recent `sublist_of` GetRecentFiles e pm
  ∧ (NoDup (GetRecentFiles e pm) → NoDup recent).
Proof.
  intros recent. subst recent. rewrite GetRecentFiles_AddRecentFile.
  change (take 10 (filePath :: ?l)) with (filePath :: take 9 l).
  split; [|split; [done|split]].
  - simpl. rewrite length_take. lia.
  - simpl. etrans; [apply sublist_take|apply dropFirst_sublist].
  - intros Hnd. rewrite dropFirst_NoDup by done. constructor.
    + intros Hin.
      pose proof (elem_of_sublist _ _ _ Hin (sublist_take _ _)) as Hin'.
      apply list_elem_of_filter in Hin' as [Hne _]. by apply Hne.
    + eapply sublist_NoDup; [|apply sublist_take]. by apply NoDup_filter.
Qed.

(** X4.  [AddRecentFile] writes nothing but the recent files of its own
    editor: the list of an editor with another name, every other project
    property of the editor and every per-editor property read as before. *)
Theorem AddRecentFile_frame {M D C : Type} (e e' : CEditor M D C)
    (pm : CPersonalizationManager) (filePath propName : string) :
  (GetEditorName e' ≠ GetEditorName e →
     GetRecentFiles e' (AddRecentFile e pm filePath) = GetRecentFiles e' pm)
  ∧ (propName ≠ "Recent Files"%string →
     GetProjectProperty e (AddRecentFile e pm filePath) propName
     = GetProjectProperty e pm propName)
  ∧ GetProperty e' (AddRecentFile e pm filePath) propName
    = GetProperty e' pm propName.
Proof.
  rewrite AddRecentFile_writes.
  unfold GetRecentFiles, GetProjectProperty, GetProperty, SetProjectProperty,
    PersonalizationManager.GetProjectProperty,
    PersonalizationManager.GetProperty,
    PersonalizationManager.SetProjectProperty; simpl.
  split; [|split; [|done]].
  - intros Hname. by rewrite lookup_insert_ne.
  - intros Hprop. rewrite lookup_insert_eq. simpl. unfold value.
    by rewrite lookup_total_insert_ne.
Qed.

(** ** More on adaptive layout *)

Section AdaptiveLayoutMore.
Context {M H D C : Type}.
Context `{!CAbstractMenu.Ops M H, !CDockableContainer.Ops D H,
          !CEditorContent.Ops C}.
Implicit Types (e : CEditor M D C).

Lemma adaptiveState_eq e1 e2 :
  adaptiveState e1 = adaptiveState e2 →
  SupportsAdaptiveLayout e1 = SupportsAdaptiveLayout e2
  ∧ GetDefaultOrientation e1 = GetDefaultOrientation e2
  ∧ width e1 = width e2 ∧ height e1 = height e2
  ∧ m_isAdaptiveLayoutEnabled e1 = m_isAdaptiveLayoutEnabled e2
  ∧ m_currentOrientation e1 = m_currentOrientation e2
  ∧ m_pActionAdaptiveLayout e1 = m_pActionAdaptiveLayout e2
  ∧ signalAdaptiveLayoutChanged e1 = signalAdaptiveLayoutChanged e2.
Proof. unfold adaptiveState. intros [= ? ? ? ? ? ? ? ?]. by repeat split. Qed.

Lemma orientationSettled_adaptiveState e1 e2 :
  adaptiveState e1 = adaptiveState e2 →
  orientationSettled e1 → orientationSettled e2.
Proof.
  intros (Hs & Hd & Hw & Hh & Hf & Ho & _)%adaptiveState_eq.
  unfold orientationSettled, IsAdaptiveLayoutEnabled.
  by rewrite Hs, Hd, Hw, Hh, Hf, Ho.
Qed.

Lemma checkMarkInSync_adaptiveState e1 e2 :
  adaptiveState e1 = adaptiveState e2 →
  checkMarkInSync e1 → checkMarkInSync e2.
Proof.
  intros (_ & _ & _ & _ & Hf & _ & Ha & _)%adaptiveState_eq.
  unfold checkMarkInSync. by rewrite Ha, Hf.
Qed.

(** [UpdateAdaptiveLayout] writes the orientation and the signal only. *)
Lemma UpdateAdaptiveLayout_static e :
  SupportsAdaptiveLayout (UpdateAdaptiveLayout e) = SupportsAdaptiveLayout e
  ∧ GetDefaultOrientation (UpdateAdaptiveLayout e) = GetDefaultOrientation e
  ∧ width (UpdateAdaptiveLayout e) = width e
  ∧ height (UpdateAdaptiveLayout e) = height e
  ∧ m_isAdaptiveLayoutEnabled (UpdateAdaptiveLayout e)
    = m_isAdaptiveLayoutEnabled e
  ∧ m_pActionAdaptiveLayout (UpdateAdaptiveLayout e)
    = m_pActionAdaptiveLayout e.
Proof.
  unfold UpdateAdaptiveLayout.
  destruct (negb (IsAdaptiveLayoutEnabled e)); [done|].
  cbv zeta. by case_decide.
Qed.

Lemma IsAdaptiveLayoutEnabled_UpdateAdaptiveLayout e :
  IsAdaptiveLayoutEnabled (UpdateAdaptiveLayout e) = IsAdaptiveLayoutEnabled e.
Proof.
  destruct (UpdateAdaptiveLayout_static e) as (Hs & _ & _ & _ & Hf & _).
  unfold IsAdaptiveLayoutEnabled. by rewrite Hs, Hf.
Qed.

Lemma UpdateAdaptiveLayout_settles e :
  orientationSettled (UpdateAdaptiveLayout e).
Proof.
  unfold orientationSettled.
  rewrite IsAdaptiveLayoutEnabled_UpdateAdaptiveLayout.
  destruct (UpdateAdaptiveLayout_static e) as (_ & Hd & Hw & Hh & _).
  rewrite Hd, Hw, Hh.
  destruct (IsAdaptiveLayoutEnabled e) eqn:Hon.
  - rewrite UpdateAdaptiveLayout_enabled by done. cbv zeta.
    fold (orientationOf (width e) (height e)). by case_decide.
  - by rewrite UpdateAdaptiveLayout_disabled.
Qed.

Lemma resizeEvent_settles e w h :
  orientationSettled e → orientationSettled (resizeEvent e w h).
Proof.
  intros Hset. unfold resizeEvent.
  destruct (IsAdaptiveLayoutEnabled (set_size w h e)) eqn:Hon; simpl.
  - apply UpdateAdaptiveLayout_settles.
  - unfold orientationSettled in *. rewrite Hon.
    change (IsAdaptiveLayoutEnabled (set_size w h e))
      with (IsAdaptiveLayoutEnabled e) in Hon.
    by rewrite Hon in Hset.
Qed.

Lemma SetAdaptiveLayoutEnabled_settles e enable e' :
  SetAdaptiveLayoutEnabled e enable = Some e' →
  orientationSettled e → orientationSettled e'.
Proof.
  unfold SetAdaptiveLayoutEnabled. case_decide.
  - by intros [= <-].
  - simpl. destruct (m_pActionAdaptiveLayout e); simpl; [|done].
    intros [= <-] _. apply UpdateAdaptiveLayout_settles.
Qed.

Lemma setChecked_checked pAction b :
  checkable pAction = true → checked (setChecked pAction b) = b.
Proof.
  intros Hc. unfold setChecked. rewrite Hc. simpl.
  destruct (Bool.eqb (checked pAction) b) eqn:Heq; [|done].
  by apply Bool.eqb_prop in Heq.
Qed.

Lemma setChecked_checkable pAction b :
  checkable (setChecked pAction b) = checkable pAction.
Proof. unfold setChecked. by destruct (_ || _). Qed.

Lemma SetAdaptiveLayoutEnabled_keeps_sync e enable e' :
  SetAdaptiveLayoutEnabled e enable = Some e' →
  checkMarkInSync e → checkMarkInSync e'.
Proof.
  unfold SetAdaptiveLayoutEnabled. case_decide.
  - by intros [= <-].
  - simpl. destruct (m_pActionAdaptiveLayout e) as [a|]; simpl; [|done].
    intros [= <-] _ pAction.
    destruct (UpdateAdaptiveLayout_static
      (set_m_pActionAdaptiveLayout (Some (setChecked a enable))
         (set_m_isAdaptiveLayoutEnabled enable e)))
      as (_ & _ & _ & _ & -> & ->).
    simpl. intros [= <-]. rewrite setChecked_checkable.
    apply setChecked_checked.
Qed.

Lemma SetAdaptiveLayoutEnabled_static e enable e' :
  SetAdaptiveLayoutEnabled e enable = Some e' →
  SupportsAdaptiveLayout e' = SupportsAdaptiveLayout e
  ∧ GetDefaultOrientation e' = GetDefaultOrientation e
  ∧ width e' = width e ∧ height e' = height e.
Proof.
  unfold SetAdaptiveLayoutEnabled. case_decide.
  - by intros [= <-].
  - simpl. destruct (m_pActionAdaptiveLayout e) as [a|]; simpl; [|done].
    intros [= <-].
    by destruct (UpdateAdaptiveLayout_static
      (set_m_pActionAdaptiveLayout (Some (setChecked a enable))
         (set_m_isAdaptiveLayoutEnabled enable e)))
      as (-> & -> & -> & -> & _).
Qed.

Lemma restoreWidgets_adaptiveState e state :
  adaptiveState (restoreWidgets e state) = adaptiveState e.
Proof.
  unfold restoreWidgets. destruct (m_dockingRegistry e); [|done].
  by destruct (contains state "dockingState").
Qed.

Lemma AddToMenu_adaptiveState e item e' :
  AddToMenu e item = Some e' → adaptiveState e' = adaptiveState e.
Proof.
  unfold AddToMenu. case_decide.
  - destruct (GetMenu _ RecentFiles); simpl; [|done]. by intros [= <-].
  - by intros [= <-].
Qed.

Lemma AddToMenu_other e item :
  item ≠ RecentFiles → is_Some (AddToMenu e item).
Proof. intros Hne. unfold AddToMenu. case_decide; [done|by eexists]. Qed.

Lemma EnableDockingSystem_adaptiveState e pm e' :
  EnableDockingSystem e pm = Some e' → adaptiveState e' = adaptiveState e.
Proof.
  unfold EnableDockingSystem. destruct (m_dockingRegistry e).
  - by intros [= <-].
  - destruct (AddToMenu e WindowMenu) as [e1|] eqn:Hadd; simpl; [|done].
    intros [= <-]. by rewrite <- (AddToMenu_adaptiveState _ _ _ Hadd).
Qed.

Lemma SetLayout_settles e state e' :
  SetLayout e state = Some e' →
  orientationSettled e → orientationSettled e'.
Proof.
  rewrite SetLayout_unfold. intros Hrun Hset.
  destruct (contains state "adaptiveLayout").
  - destruct (SetAdaptiveLayoutEnabled e _) as [e1|] eqn:He1; simpl in Hrun;
      [|done].
    injection Hrun as <-.
    eapply orientationSettled_adaptiveState;
      [symmetry; apply restoreWidgets_adaptiveState|].
    by eapply SetAdaptiveLayoutEnabled_settles.
  - simpl in Hrun. injection Hrun as <-.
    by eapply orientationSettled_adaptiveState;
      [symmetry; apply restoreWidgets_adaptiveState|].
Qed.

Lemma SetLayout_keeps_sync e state e' :
  SetLayout e state = Some e' →
  checkMarkInSync e → checkMarkInSync e'.
Proof.
  rewrite SetLayout_unfold. intros Hrun Hset.
  destruct (contains state "adaptiveLayout").
  - destruct (SetAdaptiveLayoutEnabled e _) as [e1|] eqn:He1; simpl in Hrun;
      [|done].
    injection Hrun as <-.
    eapply checkMarkInSync_adaptiveState;
      [symmetry; apply restoreWidgets_adaptiveState|].
    by eapply SetAdaptiveLayoutEnabled_keeps_sync.
  - simpl in Hrun. injection Hrun as <-.
    by eapply checkMarkInSync_adaptiveState;
      [symmetry; apply restoreWidgets_adaptiveState|].
Qed.

Lemma step_settles e s e' :
  step e s = Some e' → orientationSettled e → orientationSettled e'.
Proof.
  destruct s as [w h|enable| | |state|pm|pm]; simpl.
  - intros [= <-]. apply resizeEvent_settles.
  - apply SetAdaptiveLayoutEnabled_settles.
  - apply SetAdaptiveLayoutEnabled_settles.
  - intros [= <-] _. apply UpdateAdaptiveLayout_settles.
  - apply SetLayout_settles.
  - intros Hrun. eapply orientationSettled_adaptiveState.
    symmetry. by eapply EnableDockingSystem_adaptiveState.
  - unfold LoadLayoutPersonalization. destruct (isValid _).
    + apply SetLayout_settles.
    + by intros [= <-].
Qed.

Lemma step_keeps_sync e s e' :
  step e s = Some e' → checkMarkInSync e → checkMarkInSync e'.
Proof.
  destruct s as [w h|enable| | |state|pm|pm]; simpl.
  - intros [= <-]. unfold resizeEvent.
    destruct (negb _); [done|].
    unfold checkMarkInSync.
    destruct (UpdateAdaptiveLayout_static (set_size w h e))
      as (_ & _ & _ & _ & -> & ->). done.
  - apply SetAdaptiveLayoutEnabled_keeps_sync.
  - apply SetAdaptiveLayoutEnabled_keeps_sync.
  - intros [= <-]. unfold checkMarkInSync.
    by destruct (UpdateAdaptiveLayout_static e) as (_ & _ & _ & _ & -> & ->).
  - apply SetLayout_keeps_sync.
  - intros Hrun. eapply checkMarkInSync_adaptiveState.
    symmetry. by eapply EnableDockingSystem_adaptiveState.
  - unfold LoadLayoutPersonalization. destruct (isValid _).
    + apply SetLayout_keeps_sync.
    + by intros [= <-].
Qed.

End AdaptiveLayoutMore.

Lemma noRepeat_snoc (l : list Orientation) (o : Orientation) :
  noRepeat l → last l ≠ Some o → noRepeat (l ++ [o]).
Proof.
  induction l as [|a l IH]; [done|].
  destruct l as [|b l].
  - simpl. intros _ Hne. split; [|done]. congruence.
  - intros [Hab Hrest] Hlast. split; [done|].
    apply IH; [done|]. by rewrite last_cons_cons in Hlast.
Qed.

Section AdaptiveLayoutRuns.
Context {M H D C : Type}.
Context `{!CAbstractMenu.Ops M H, !CDockableContainer.Ops D H,
          !CEditorContent.Ops C}.
Implicit Types (e : CEditor M D C).

Lemma resizeEvent_in_force e w h :
  IsAdaptiveLayoutEnabled e = true →
  resizeEvent e w h
  = if decide (orientationOf w h = m_currentOrientation e)
    then set_size w h e
    else emit_signalAdaptiveLayoutChanged (orientationOf w h)
           (set_m_currentOrientation (orientationOf w h) (set_size w h e)).
Proof.
  intros Hon. unfold resizeEvent.
  assert (IsAdaptiveLayoutEnabled (set_size w h e) = true) as Hon' by done.
  rewrite Hon'. simpl negb. cbv iota.
  by rewrite UpdateAdaptiveLayout_enabled.
Qed.

Lemma resizeEvent_not_in_force e w h :
  IsAdaptiveLayoutEnabled e = false → resizeEvent e w h = set_size w h e.
Proof.
  intros Hoff. unfold resizeEvent.
  assert (IsAdaptiveLayoutEnabled (set_size w h e) = false) as -> by done.
  done.
Qed.

Lemma IsAdaptiveLayoutEnabled_resizeEvent e w h :
  IsAdaptiveLayoutEnabled (resizeEvent e w h) = IsAdaptiveLayoutEnabled e.
Proof.
  unfold resizeEvent. destruct (negb _); [done|].
  by rewrite IsAdaptiveLayoutEnabled_UpdateAdaptiveLayout.
Qed.

Lemma resizeEvents_snoc e sizes w h :
  resizeEvents e (sizes ++ [(w, h)]) = resizeEvent (resizeEvents e sizes) w h.
Proof. unfold resizeEvents. by rewrite foldl_app. Qed.

Lemma IsAdaptiveLayoutEnabled_resizeEvents e sizes :
  IsAdaptiveLayoutEnabled (resizeEvents e sizes) = IsAdaptiveLayoutEnabled e.
Proof.
  induction sizes as [|[w h] sizes IH] using rev_ind; [done|].
  by rewrite resizeEvents_snoc, IsAdaptiveLayoutEnabled_resizeEvent.
Qed.

Lemma run_preserves (P : CEditor M D C → Prop) :
  (∀ e s e', step e s = Some e' → P e → P e') →
  ∀ steps e e', run e steps = Some e' → P e → P e'.
Proof.
  intros Hstep steps. induction steps as [|s steps IH]; intros e e'; simpl.
  - by intros [= <-].
  - destruct (step e s) as [e1|] eqn:Hs; simpl; [|done].
    intros Hrun HP. eapply IH; [done|]. by eapply Hstep.
Qed.

End AdaptiveLayoutRuns.

(** X5.  While adaptive layout is not in force (switched off, or not
    supported by the editor), no run of resize events raises the signal or
    changes the orientation. *)
Theorem resizeEvents_not_in_force {M D C : Type} (e : CEditor M D C)
    (sizes : list (Z * Z)) :
  IsAdaptiveLayoutEnabled e = false →
  m_currentOrientation (resizeEvents e sizes) = m_currentOrientation e
  ∧ signalAdaptiveLayoutChanged (resizeEvents e sizes)
    = signalAdaptiveLayoutChanged e
  ∧ m_isAdaptiveLayoutEnabled (resizeEvents e sizes)
    = m_isAdaptiveLayoutEnabled e.
Proof.
  intros Hoff. induction sizes as [|[w h] sizes IH] using rev_ind; [done|].
  rewrite resizeEvents_snoc, resizeEvent_not_in_force.
  - done.
  - by rewrite IsAdaptiveLayoutEnabled_resizeEvents.
Qed.

Lemma resizeEvents_not_in_force_witness :
  let e := set_m_isAdaptiveLayoutEnabled false Plain.editor in
  signalAdaptiveLayoutChanged (resizeEvents e [(100, 200); (200, 100)]) = [].
Proof.
  intros e.
  apply (resizeEvents_not_in_force e [(100, 200); (200, 100)]). reflexivity.
Defined.

(** X6.  While adaptive layout is in force, a run of resize events only
    appends to the signals raised; starting from the orientation before the
    run, the values raised never repeat one after the other; there are at
    most as many as resize events; the last value raised is the orientation
    the editor ends with; and that orientation is the one of the last
    size. *)
Theorem resizeEvents_in_force {M D C : Type} (e : CEditor M D C)
    (sizes : list (Z * Z)) :
  IsAdaptiveLayoutEnabled e = true →
  ∃ raised,
    signalAdaptiveLayoutChanged (resizeEvents e sizes)
    = signalAdaptiveLayoutChanged e ++ raised
    ∧ noRepeat (m_currentOrientation e :: raised)
    ∧ (length raised ≤ length sizes)%nat
    ∧ last (m_currentOrientation e :: raised)
      = Some (m_currentOrientation (resizeEvents e sizes))
    ∧ (∀ w h, last sizes = Some (w, h) →
         m_currentOrientation (resizeEvents e sizes) = orientationOf w h).
Proof.
  intros Hon. induction sizes as [|[w h] sizes IH] using rev_ind.
  - exists []. rewrite app_nil_r. by repeat split.
  - destruct IH as (raised & Hsig & Hnr & Hlen & Hlast & _).
    rewrite resizeEvents_snoc, resizeEvent_in_force
      by (by rewrite IsAdaptiveLayoutEnabled_resizeEvents).
    destruct (decide (orientationOf w h
                      = m_currentOrientation (resizeEvents e sizes)))
      as [Heq|Hne].
    + exists raised. simpl. rewrite length_app. simpl.
      split; [done|]. split; [done|]. split; [lia|]. split; [done|].
      intros w' h'. rewrite last_snoc. by intros [= <- <-].
    + exists (raised ++ [orientationOf w h]). simpl.
      rewrite Hsig, !length_app. simpl. rewrite app_assoc.
      split; [done|]. split.
      { change (noRepeat ((m_currentOrientation e :: raised)
                          ++ [orientationOf w h])).
        apply noRepeat_snoc; [done|]. rewrite Hlast. congruence. }
      split; [lia|]. split.
      { change (last ((m_currentOrientation e :: raised)
                      ++ [orientationOf w h]) = Some (orientationOf w h)).
        apply last_snoc. }
      intros w' h'. rewrite last_snoc. by intros [= <- <-].
Qed.

Lemma resizeEvents_in_force_witness :
  ∃ raised,
    signalAdaptiveLayoutChanged
      (resizeEvents Plain.editor [(100, 200); (50, 80); (200, 100)])
    = [] ++ raised
    ∧ noRepeat (Horizontal :: raised)
    ∧ (length raised ≤ 3)%nat
    ∧ last (Horizontal :: raised)
      = Some (m_currentOrientation
                (resizeEvents Plain.editor [(100, 200); (50, 80); (200, 100)]))
    ∧ (∀ w h, last [(100, 200); (50, 80); (200, 100)] = Some (w, h) →
         m_currentOrientation
           (resizeEvents Plain.editor [(100, 200); (50, 80); (200, 100)])
         = orientationOf w h).
Proof.
  apply (resizeEvents_in_force Plain.editor [(100, 200); (50, 80); (200, 100)]).
  reflexivity.
Defined.

(** X7.  [SetAdaptiveLayoutEnabled] reaches for the adaptive-layout action
    only when the value changes: the call breaks off exactly when the value
    differs from the flag and the action is still null. *)
Theorem SetAdaptiveLayoutEnabled_breaks_off {M D C : Type}
    (e : CEditor M D C) (enable : bool) :
  SetAdaptiveLayoutEnabled e enable = None
  ↔ m_isAdaptiveLayoutEnabled e ≠ enable ∧ m_pActionAdaptiveLayout e = None.
Proof.
  unfold SetAdaptiveLayoutEnabled.
  destruct (decide (m_isAdaptiveLayoutEnabled e = enable)) as [Heq|Hne].
  - split; [done|]. by intros [? _].
  - simpl. destruct (m_pActionAdaptiveLayout e); simpl.
    + split; [done|]. by intros [_ ?].
    + done.
Qed.

(** X8.  Switching adaptive layout on, on an editor that supports it and has
    its action, takes the orientation of the current size at once; the
    signal is raised with it exactly when it differs from the orientation
    before; and a checkable action ends up checked. *)
Theorem SetAdaptiveLayoutEnabled_enable {M D C : Type} (e : CEditor M D C)
    (pAction : QCommandAction) :
  SupportsAdaptiveLayout e = true →
  m_isAdaptiveLayoutEnabled e = false →
  m_pActionAdaptiveLayout e = Some pAction →
  let newOrientation := orientationOf (width e) (height e) in
  ∃ e', SetAdaptiveLayoutEnabled e true = Some e'
    ∧ m_isAdaptiveLayoutEnabled e' = true
    ∧ m_currentOrientation e' = newOrientation
    ∧ signalAdaptiveLayoutChanged e'
      = signalAdaptiveLayoutChanged e
        ++ (if decide (newOrientation = m_currentOrientation e) then []
            else [newOrientation])
    ∧ m_pActionAdaptiveLayout e' = Some (setChecked pAction true)
    ∧ (checkable pAction = true → checked (setChecked pAction true) = true).
Proof.
  intros Hsup Hoff Hact newOrientation. unfold SetAdaptiveLayoutEnabled.
  destruct (decide (m_isAdaptiveLayoutEnabled e = true)); [congruence|].
  simpl. rewrite Hact. simpl. eexists. split; [reflexivity|].
  rewrite UpdateAdaptiveLayout_enabled
    by (unfold IsAdaptiveLayoutEnabled; simpl; by rewrite Hsup).
  cbv zeta. simpl width. simpl height. simpl m_currentOrientation.
  change (if width e >? height e then Horizontal else Vertical)
    with newOrientation.
  destruct (decide (newOrientation = m_currentOrientation e)) as [Heq|Hne].
  - rewrite app_nil_r. simpl. repeat split; try done.
    apply setChecked_checked.
  - simpl. repeat split; try done. apply setChecked_checked.
Qed.

Lemma SetAdaptiveLayoutEnabled_enable_witness :
  let e := set_size 100 200 (set_m_isAdaptiveLayoutEnabled false Plain.editor) in
  ∃ e', SetAdaptiveLayoutEnabled e true = Some e'
    ∧ m_isAdaptiveLayoutEnabled e' = true
    ∧ m_currentOrientation e' = Vertical
    ∧ signalAdaptiveLayoutChanged e' = [Vertical].
Proof.
  intros e.
  destruct (SetAdaptiveLayoutEnabled_enable e
              {| command := "editor.toggle_adaptive_layout";
                 checkable := true; checked := true |})
    as (e' & He' & Hf & Ho & Hs & _); [reflexivity..|].
  exists e'. by repeat split.
Defined.

(** X9.  [UpdateAdaptiveLayout] leaves the orientation the state calls for,
    from any state: that of the size while adaptive layout is in force, the
    default otherwise.  While adaptive layout is in force a second call
    right after changes nothing. *)
Theorem UpdateAdaptiveLayout_settled {M D C : Type} (e : CEditor M D C) :
  orientationSettled (UpdateAdaptiveLayout e)
  ∧ (IsAdaptiveLayoutEnabled e = true →
     UpdateAdaptiveLayout (UpdateAdaptiveLayout e) = UpdateAdaptiveLayout e).
Proof.
  split; [apply UpdateAdaptiveLayout_settles|].
  intros Hon.
  pose proof (UpdateAdaptiveLayout_settles e) as Hset.
  unfold orientationSettled in Hset.
  rewrite IsAdaptiveLayoutEnabled_UpdateAdaptiveLayout, Hon in Hset.
  rewrite (UpdateAdaptiveLayout_enabled (UpdateAdaptiveLayout e))
    by (by rewrite IsAdaptiveLayoutEnabled_UpdateAdaptiveLayout).
  cbv zeta. fold (orientationOf (width (UpdateAdaptiveLayout e))
                    (height (UpdateAdaptiveLayout e))).
  by case_decide.
Qed.

(** X10.  Once the orientation is the one the state calls for, it stays so
    through every run of resize events, flag changes, toggles, updates,
    layout restores and docking set-up that completes. *)
Theorem run_keeps_orientation_settled {M H D C : Type}
    `{!CAbstractMenu.Ops M H, !CDockableContainer.Ops D H, !CEditorContent.Ops C}
    (e e' : CEditor M D C) (steps : list Step) :
  orientationSettled e → run e steps = Some e' → orientationSettled e'.
Proof.
  intros Hset Hrun.
  by apply (run_preserves orientationSettled step_settles steps e e').
Qed.

Lemma run_keeps_orientation_settled_witness :
  let steps := [DoResize 100 200; DoToggleAdaptiveLayout; DoResize 300 100;
                DoSetLayout exampleLayout; DoResize 10 20;
                DoEnableDockingSystem Plain.noPersonalization] in
  is_Some (run Plain.editor steps)
  ∧ orientationSettled (default Plain.editor (run Plain.editor steps)).
Proof.
  intros steps. split; [vm_compute; eexists; reflexivity|].
  apply (run_keeps_orientation_settled Plain.editor _ steps);
    vm_compute; reflexivity.
Defined.

(** X11.  A check mark that shows the flag keeps showing it: through every
    run that completes, a checkable adaptive-layout action is checked
    exactly when the flag is on. *)
Theorem run_keeps_check_mark {M H D C : Type}
    `{!CAbstractMenu.Ops M H, !CDockableContainer.Ops D H, !CEditorContent.Ops C}
    (e e' : CEditor M D C) (steps : list Step) :
  checkMarkInSync e → run e steps = Some e' → checkMarkInSync e'.
Proof.
  intros Hsync Hrun.
  by apply (run_preserves checkMarkInSync step_keeps_sync steps e e').
Qed.

Lemma run_keeps_check_mark_witness :
  let steps := [DoToggleAdaptiveLayout; DoResize 300 100;
                DoSetLayout exampleLayout] in
  is_Some (run Plain.editor steps)
  ∧ checkMarkInSync (default Plain.editor (run Plain.editor steps)).
Proof.
  intros steps. split; [vm_compute; eexists; reflexivity|].
  apply (run_keeps_check_mark Plain.editor _ steps);
    [|vm_compute; reflexivity].
  intros pAction [= <-] _. reflexivity.
Defined.

(** ** More on layouts, personalization and docking *)

Section LayoutMore.
Context {M H D C : Type}.
Context `{!CAbstractMenu.Ops M H, !CDockableContainer.Ops D H,
          !CEditorContent.Ops C}.
Implicit Types (e : CEditor M D C) (pm : CPersonalizationManager).

(** The entries of [GetLayout]. *)
Lemma GetLayout_lookup e :
  GetLayout e !! "adaptiveLayout" = Some (QBool (m_isAdaptiveLayoutEnabled e))
  ∧ GetLayout e !! "editorContent"
    = Some (QMap (CEditorContent.GetState (m_pEditorContent e)))
  ∧ GetLayout e !! "dockingState"
    = (λ registry, QMap (CDockableContainer.GetState registry))
        <$> m_dockingRegistry e.
Proof.
  unfold GetLayout. split; [|split].
  - by rewrite lookup_insert_eq.
  - by rewrite lookup_insert_ne, lookup_insert_eq.
  - do 2 (rewrite lookup_insert_ne by done).
    destruct (m_dockingRegistry e); simpl; [by rewrite lookup_insert_eq|done].
Qed.

Lemma contains_present (state : QVariantMap) k v :
  state !! k = Some v → contains state k = true.
Proof. intros Hk. unfold contains. apply bool_decide_eq_true. by eexists. Qed.

(** Restoring the layout of [e1] into [e2] when the flags agree. *)
Lemma SetLayout_GetLayout_of e1 e2 :
  m_isAdaptiveLayoutEnabled e2 = m_isAdaptiveLayoutEnabled e1 →
  SetLayout e2 (GetLayout e1) = Some (restoreWidgets e2 (GetLayout e1)).
Proof.
  intros Hflag. destruct (GetLayout_lookup e1) as (Ha & _ & _).
  rewrite SetLayout_unfold, (contains_present _ _ _ Ha),
    (value_present _ _ _ Ha).
  simpl QVariant.toBool. unfold SetAdaptiveLayoutEnabled.
  by destruct (decide (m_isAdaptiveLayoutEnabled e2
                       = m_isAdaptiveLayoutEnabled e1)).
Qed.

Lemma GetPersonalizationState_Save e1 e2 pm :
  GetEditorName e2 = GetEditorName e1 →
  GetPersonalizationState e2 (SaveLayoutPersonalization e1 pm)
  = <["layout" := QMap (GetLayout e1)]> (GetPersonalizationState e1 pm).
Proof.
  intros Hname.
  unfold SaveLayoutPersonalization, SetPersonalizationState,
    GetPersonalizationState, PersonalizationManager_GetState,
    PersonalizationManager_SetState; simpl.
  by rewrite Hname, lookup_insert_eq.
Qed.

Lemma EnableDockingSystem_completes e pm :
  ∃ e', EnableDockingSystem e pm = Some e'
    ∧ is_Some (m_dockingRegistry e')
    ∧ (m_dockingRegistry e = None →
       ∃ pMenu,
         m_dockingRegistry e'
         = Some (CDockableContainer.SetMenu
                   (CDockableContainer.Create
                      (QVariant.toMap (GetProperty e pm "dockLayout")))
                   pMenu)).
Proof.
  unfold EnableDockingSystem.
  destruct (m_dockingRegistry e) as [d|] eqn:Hreg.
  - exists e. rewrite Hreg. split; [done|]. split; [by eexists|done].
  - destruct (AddToMenu_other e WindowMenu) as [e1 He1]; [done|].
    rewrite He1. simpl. eexists. split; [reflexivity|].
    split; [by eexists|]. intros _. eexists. simpl.
    unfold AddToMenu in He1. case_decide; [done|].
    injection He1 as <-. reflexivity.
Qed.

(** Saving the layout leaves the other properties of the editor alone. *)
Lemma GetProperty_SaveLayoutPersonalization e pm propName :
  propName ≠ "layout"%string →
  GetProperty e (SaveLayoutPersonalization e pm) propName
  = GetProperty e pm propName.
Proof.
  intros Hne.
  unfold SaveLayoutPersonalization, SetPersonalizationState,
    GetPersonalizationState, PersonalizationManager_GetState,
    PersonalizationManager_SetState, GetProperty,
    PersonalizationManager.GetProperty, value; simpl.
  rewrite lookup_insert_eq. simpl. by rewrite lookup_total_insert_ne.
Qed.

End LayoutMore.

(** X12.  Restoring an editor's own layout always completes, with or
    without the adaptive-layout action: nothing the adaptive-layout
    controller holds changes and no signal is raised; the editor content is
    handed back its own state, and so is the docking registry when there is
    one. *)
Theorem SetLayout_own_layout {M H D C : Type}
    `{!CDockableContainer.Ops D H, !CEditorContent.Ops C}
    (e : CEditor M D C) :
  ∃ e', SetLayout e (GetLayout e) = Some e'
    ∧ adaptiveState e' = adaptiveState e
    ∧ m_pMenu e' = m_pMenu e
    ∧ m_pEditorContent e'
      = CEditorContent.SetState (m_pEditorContent e)
          (CEditorContent.GetState (m_pEditorContent e))
    ∧ m_dockingRegistry e'
      = (λ registry,
           CDockableContainer.SetState registry
             (CDockableContainer.GetState registry))
          <$> m_dockingRegistry e.
Proof.
  rewrite (SetLayout_GetLayout_of e e) by done. eexists.
  split; [reflexivity|].
  destruct (GetLayout_lookup e) as (_ & Hc & Hd).
  split; [apply restoreWidgets_adaptiveState|].
  split.
  { unfold restoreWidgets. destruct (m_dockingRegistry e); [|done].
    by destruct (contains _ _). }
  split.
  - by rewrite restoreWidgets_content, (value_present _ _ _ Hc).
  - rewrite restoreWidgets_registry, Hd.
    by destruct (m_dockingRegistry e).
Qed.

(** X13.  What [SaveLayoutPersonalization] stores is what
    [LoadLayoutPersonalization] restores: loading, into an editor of the
    same name, from a store an editor has saved to is [SetLayout] with the
    layout that editor had. *)
Theorem LoadLayoutPersonalization_SaveLayoutPersonalization {M H D C : Type}
    `{!CDockableContainer.Ops D H, !CEditorContent.Ops C}
    (e1 e2 : CEditor M D C) (pm : CPersonalizationManager) :
  GetEditorName e2 = GetEditorName e1 →
  LoadLayoutPersonalization e2 (SaveLayoutPersonalization e1 pm)
  = SetLayout e2 (GetLayout e1).
Proof.
  intros Hname. unfold LoadLayoutPersonalization.
  rewrite (GetPersonalizationState_Save e1 e2 pm Hname).
  rewrite (value_present _ "layout" (QMap (GetLayout e1)))
    by apply lookup_insert_eq.
  done.
Qed.

Lemma LoadLayoutPersonalization_SaveLayoutPersonalization_witness :
  LoadLayoutPersonalization Plain.editor
    (SaveLayoutPersonalization Plain.dockedEditor Plain.noPersonalization)
  = SetLayout Plain.editor (GetLayout Plain.dockedEditor).
Proof.
  apply (LoadLayoutPersonalization_SaveLayoutPersonalization
           Plain.dockedEditor Plain.editor Plain.noPersonalization).
  reflexivity.
Defined.

(** X14.  [SaveLayoutPersonalization] writes the "layout" entry of its own
    editor and nothing else: the entry reads back as the layout, every
    other property of the editor, every property of an editor with another
    name and every project property read as before. *)
Theorem SaveLayoutPersonalization_frame {M H D C : Type}
    `{!CDockableContainer.Ops D H, !CEditorContent.Ops C}
    (e e' : CEditor M D C) (pm : CPersonalizationManager) (propName : string) :
  GetProperty e (SaveLayoutPersonalization e pm) "layout" = QMap (GetLayout e)
  ∧ (propName ≠ "layout"%string →
     GetProperty e (SaveLayoutPersonalization e pm) propName
     = GetProperty e pm propName)
  ∧ (GetEditorName e' ≠ GetEditorName e →
     GetProperty e' (SaveLayoutPersonalization e pm) propName
     = GetProperty e' pm propName)
  ∧ GetProjectProperty e' (SaveLayoutPersonalization e pm) propName
    = GetProjectProperty e' pm propName.
Proof.
  unfold SaveLayoutPersonalization, SetPersonalizationState,
    GetPersonalizationState, PersonalizationManager_GetState,
    PersonalizationManager_SetState, GetProperty, GetProjectProperty,
    PersonalizationManager.GetProperty,
    PersonalizationManager.GetProjectProperty, value; simpl.
  split; [|split; [|split; [|done]]].
  - rewrite lookup_insert_eq. simpl. by rewrite lookup_total_insert_eq.
  - intros Hne. rewrite lookup_insert_eq. simpl.
    by rewrite lookup_total_insert_ne.
  - intros Hname. by rewrite lookup_insert_ne.
Qed.

(** X15.  The docking layout the registry reports through [OnLayoutChange]
    is the one a later [EnableDockingSystem], on an editor of the same name
    without a registry, creates its registry with, also when the layout was
    saved in between. *)
Theorem OnLayoutChange_EnableDockingSystem {M H D C : Type}
    `{!CAbstractMenu.Ops M H, !CDockableContainer.Ops D H, !CEditorContent.Ops C}
    (e e2 : CEditor M D C) (pm : CPersonalizationManager)
    (state : QVariantMap) :
  GetEditorName e2 = GetEditorName e →
  m_dockingRegistry e2 = None →
  ∀ pm', pm' = OnLayoutChange e pm state
         ∨ pm' = SaveLayoutPersonalization e (OnLayoutChange e pm state) →
  ∃ e' pMenu,
    EnableDockingSystem e2 pm' = Some e'
    ∧ m_dockingRegistry e'
      = Some (CDockableContainer.SetMenu (CDockableContainer.Create state) pMenu).
Proof.
  intros Hname Hreg pm' Hpm'.
  assert (GetProperty e2 pm' "dockLayout" = QMap state) as Hprop.
  { assert (GetProperty e (OnLayoutChange e pm state) "dockLayout" = QMap state)
      as Hchange.
    { unfold OnLayoutChange, GetProperty, SetProperty,
        PersonalizationManager.GetProperty,
        PersonalizationManager.SetProperty, value; simpl.
      rewrite lookup_insert_eq. simpl. apply lookup_total_insert_eq. }
    assert (∀ pm0, GetProperty e2 pm0 "dockLayout" = GetProperty e pm0 "dockLayout")
      as Hsame by (intros pm0; unfold GetProperty; by rewrite Hname).
    rewrite Hsame. destruct Hpm' as [->| ->]; [done|].
    by rewrite GetProperty_SaveLayoutPersonalization. }
  destruct (EnableDockingSystem_completes e2 pm') as (e' & He' & _ & Hnew).
  destruct (Hnew Hreg) as (pMenu & Hd).
  exists e', pMenu. split; [done|]. by rewrite Hd, Hprop.
Qed.

Lemma OnLayoutChange_EnableDockingSystem_witness :
  let state : QVariantMap := {[ "Main"%string := QStr "left" ]} in
  ∃ e' pMenu,
    EnableDockingSystem Plain.editor
      (SaveLayoutPersonalization Plain.editor
         (OnLayoutChange Plain.editor Plain.noPersonalization state))
    = Some e'
    ∧ m_dockingRegistry e'
      = Some (CDockableContainer.SetMenu (CDockableContainer.Create state) pMenu).
Proof.
  intros state.
  apply (OnLayoutChange_EnableDockingSystem Plain.editor Plain.editor
           Plain.noPersonalization state); [reflexivity|reflexivity|].
  right. reflexivity.
Defined.

(** X16.  [EnableDockingSystem] always completes and leaves the editor with
    a docking registry; a further call, with any store, changes nothing;
    and nothing the adaptive-layout controller holds is touched. *)
Theorem EnableDockingSystem_idempotent {M H D C : Type}
    `{!CAbstractMenu.Ops M H, !CDockableContainer.Ops D H, !CEditorContent.Ops C}
    (e : CEditor M D C) (pm pm' : CPersonalizationManager) :
  ∃ e', EnableDockingSystem e pm = Some e'
    ∧ is_Some (m_dockingRegistry e')
    ∧ EnableDockingSystem e' pm' = Some e'
    ∧ adaptiveState e' = adaptiveState e.
Proof.
  destruct (EnableDockingSystem_completes e pm) as (e' & He' & [d Hd] & _).
  exists e'. split; [done|]. split; [by eexists|]. split.
  - unfold EnableDockingSystem. by rewrite Hd.
  - by eapply EnableDockingSystem_adaptiveState.
Qed.

(** ** The about-to-quit veto *)

Section AboutToClose.
Context {M H D C : Type}.
Context `{!CAbstractMenu.Ops M H, !CDockableContainer.Ops D H,
          !CEditorContent.Ops C}.

Lemma broadcastAboutToClose_snoc
    (editors : list (CEditor M D C * (list string → bool * list string)))
    ec (event : BroadcastEvent) :
  broadcastAboutToClose (editors ++ [ec]) event
  = OnMainFrameAboutToClose ec.1 ec.2 (broadcastAboutToClose editors event).
Proof. unfold broadcastAboutToClose. by rewrite foldl_app. Qed.

End AboutToClose.

(** X17.  An about-to-quit event that has passed a row of editors is still
    accepted exactly when it was accepted before and every editor can quit;
    it carries, behind the change lists it had, one change list for each
    editor that cannot quit, in the order of the editors, under the editor's
    name.  An event of another type passes unchanged. *)
Theorem broadcastAboutToClose_veto {M H D C : Type}
    `{!CAbstractMenu.Ops M H, !CDockableContainer.Ops D H, !CEditorContent.Ops C}
    (editors : list (CEditor M D C * (list string → bool * list string)))
    (event : BroadcastEvent) :
  (type event = AboutToQuit →
     type (broadcastAboutToClose editors event) = AboutToQuit
     ∧ isAccepted (broadcastAboutToClose editors event)
       = isAccepted event && forallb (λ ec, (ec.2 []).1) editors
     ∧ changeLists (broadcastAboutToClose editors event)
       = changeLists event
         ++ map (λ ec, (GetEditorName ec.1, (ec.2 []).2))
              (List.filter (λ ec, negb (ec.2 []).1) editors))
  ∧ (type event ≠ AboutToQuit → broadcastAboutToClose editors event = event).
Proof.
  split.
  - intros Htype. induction editors as [|[e1 CanQuit] editors IH] using rev_ind.
    + simpl. by rewrite andb_true_r, app_nil_r.
    + destruct IH as (Ht & Ha & Hc).
      rewrite broadcastAboutToClose_snoc. unfold OnMainFrameAboutToClose.
      rewrite Ht. destruct (decide (AboutToQuit = AboutToQuit)); [|done].
      rewrite forallb_app, List.filter_app, map_app.
      cbn [fst snd forallb List.filter map].
      destruct (CanQuit []) as [canQuit changedFiles] eqn:Hquit.
      destruct canQuit; cbn [fst snd negb map].
      * rewrite app_nil_r, !andb_true_r. split; [done|]. split; [done|].
        done.
      * unfold ignore, AddChangeList. cbn [type isAccepted changeLists].
        rewrite !andb_false_r, app_assoc. split; [done|].
        split; [done|]. by rewrite Hc, ?Hquit.
  - intros Htype. induction editors as [|ec editors IH] using rev_ind.
    + done.
    + rewrite broadcastAboutToClose_snoc, IH. unfold OnMainFrameAboutToClose.
      by destruct (decide (type event = AboutToQuit)).
Qed.

(** ** The release-mouse filter *)

Lemma map_in_map {A B : Type} (l : list A) (f : A → B) :
  map_in l (λ x _, f x) = map f l.
Proof. induction l as [|x l IH]; simpl; [done|]. by rewrite IH. Qed.

Lemma InstallReleaseMouseFilter_eq object :
  InstallReleaseMouseFilter object
  = object :: concat (map InstallReleaseMouseFilter (findChildren object)).
Proof.
  rewrite InstallReleaseMouseFilter_equation_1. by rewrite map_in_map.
Qed.

Lemma elem_of_concat_map {A B : Type} (f : A → list B) (l : list A) (x : B) :
  x ∈ concat (map f l) ↔ ∃ d, d ∈ l ∧ x ∈ f d.
Proof.
  induction l as [|a l IH]; simpl.
  - split; [by intros ?%elem_of_nil|]. by intros (d & ?%elem_of_nil & _).
  - rewrite elem_of_app, IH. split.
    + intros [Hx|(d & Hd & Hx)].
      * exists a. split; [apply list_elem_of_here|done].
      * exists d. split; [by apply list_elem_of_further|done].
    + intros (d & Hd & Hx). apply elem_of_cons in Hd as [->|Hd].
      * by left.
      * right. by exists d.
Qed.

(** What [findChildren] returns are the widgets below the object. *)
Lemma findChildren_below o d :
  d ∈ findChildren o ↔ below o d ∧ isWidgetType d = true.
Proof.
  revert d. induction o as [n w cs IH] using QObject_induction.
  induction IH as [|c cs Hc Hcs IHcs]; intros d.
  - simpl. split; [by intros ?%elem_of_nil|].
    intros [Hb _]. inversion Hb as [c Hin|c d' Hin _]; simpl in Hin;
      by apply elem_of_nil in Hin.
  - rewrite findChildren_cons, !elem_of_app, Hc, IHcs. split.
    + intros [Hd|[[Hb Hw]|[Hb Hw]]].
      * destruct (isWidgetType c) eqn:Hwc; [|by apply elem_of_nil in Hd].
        apply list_elem_of_singleton in Hd as ->.
        split; [|done]. apply below_child. simpl. apply list_elem_of_here.
      * split; [|done]. apply (below_deeper _ c); [|done].
        simpl. apply list_elem_of_here.
      * split; [|done].
        inversion Hb as [c' Hin|c' d' Hin Hd']; simpl in Hin.
        -- apply below_child. simpl. by apply list_elem_of_further.
        -- apply (below_deeper _ c'); [|done]. simpl.
           by apply list_elem_of_further.
    + intros [Hb Hw].
      inversion Hb as [c' Hin|c' d' Hin Hd']; simpl in Hin;
        apply elem_of_cons in Hin as [->|Hin].
      * left. rewrite Hw. apply list_elem_of_here.
      * right; right. split; [|done]. by apply below_child.
      * right; left. done.
      * right; right. split; [|done]. by apply (below_deeper _ c').
Qed.

Lemma below_trans o c d : below o c → below c d → below o d.
Proof.
  induction 1 as [o c Hin|o c c' Hin Hb IH]; intros Hd.
  - by apply (below_deeper _ c).
  - apply (below_deeper _ c); [done|]. by apply IH.
Qed.

(** X18.  [InstallReleaseMouseFilter] installs the filter on the object it
    is given and on every widget below it, at any depth, and on nothing
    else: an object below that is not a widget never gets the filter. *)
Theorem InstallReleaseMouseFilter_covers (object x : QObject) :
  x ∈ InstallReleaseMouseFilter object
  ↔ x = object ∨ (below object x ∧ isWidgetType x = true).
Proof.
  revert x. remember (objects object) as k eqn:Hk. revert object Hk.
  induction k as [k IH] using lt_wf_ind. intros object -> x.
  rewrite InstallReleaseMouseFilter_eq, elem_of_cons.
  rewrite <- findChildren_below.
  split.
  - intros [->|Hin]; [by left|]. right.
    apply elem_of_concat_map in Hin as (d & Hd & Hx).
    apply (IH (objects d) (findChildren_smaller _ _ Hd) d eq_refl) in Hx
      as [->|Hbelow]; [done|].
    apply findChildren_below. apply findChildren_below in Hd as [Hd _].
    destruct Hbelow as [Hb Hw]. split; [|done]. by eapply below_trans.
  - intros [->|Hd]; [by left|]. right.
    apply elem_of_concat_map. exists x. split; [done|].
    apply (IH (objects x) (findChildren_smaller _ _ Hd) x eq_refl).
    by left.
Qed.

(** X19.  On [n] widgets nested one in the other below a widget,
    [InstallReleaseMouseFilter] calls [installEventFilter] 2^n times: the
    calls double with every level, as each widget is reached once through
    each widget above it. *)
Theorem InstallReleaseMouseFilter_nested (n : nat) :
  length (InstallReleaseMouseFilter (nestedWidgets n)) = (2 ^ n)%nat.
Proof.
  induction n as [|n IH].
  - by rewrite InstallReleaseMouseFilter_eq.
  - assert (isWidgetType (nestedWidgets n) = true) as Hw by (by destruct n).
    rewrite InstallReleaseMouseFilter_eq. cbn [nestedWidgets].
    rewrite findChildren_cons, Hw.
    change (findChildren (Object "widget" true [])) with (@nil QObject).
    rewrite app_nil_r. cbn [app map concat].
    rewrite length_cons, length_app, IH.
    rewrite InstallReleaseMouseFilter_eq, length_cons in IH.
    rewrite Nat.pow_succ_r'. lia.
Qed.

(** ** Toggling and restoring the flag *)

Section Toggle.
Context {M H D C : Type}.
Context `{!CAbstractMenu.Ops M H, !CDockableContainer.Ops D H,
          !CEditorContent.Ops C}.
Implicit Types (e : CEditor M D C).

Lemma SetAdaptiveLayoutEnabled_keeps_action e enable e' :
  SetAdaptiveLayoutEnabled e enable = Some e' →
  is_Some (m_pActionAdaptiveLayout e) → is_Some (m_pActionAdaptiveLayout e').
Proof.
  unfold SetAdaptiveLayoutEnabled. case_decide.
  - by intros [= <-].
  - simpl. destruct (m_pActionAdaptiveLayout e) as [a|]; simpl; [|done].
    intros [= <-] _.
    destruct (UpdateAdaptiveLayout_static
      (set_m_pActionAdaptiveLayout (Some (setChecked a enable))
         (set_m_isAdaptiveLayoutEnabled enable e)))
      as (_ & _ & _ & _ & _ & ->).
    by eexists.
Qed.

(** One toggle on an editor that supports adaptive layout and has its
    action: it completes and inverts the flag. *)
Lemma toggle_adaptive_layout_inverts e :
  SupportsAdaptiveLayout e = true →
  is_Some (m_pActionAdaptiveLayout e) →
  ∃ e', toggle_adaptive_layout e = Some e'
    ∧ m_isAdaptiveLayoutEnabled e' = negb (m_isAdaptiveLayoutEnabled e)
    ∧ SupportsAdaptiveLayout e' = true
    ∧ GetDefaultOrientation e' = GetDefaultOrientation e
    ∧ width e' = width e ∧ height e' = height e
    ∧ is_Some (m_pActionAdaptiveLayout e')
    ∧ (orientationSettled e → orientationSettled e')
    ∧ (checkMarkInSync e → checkMarkInSync e').
Proof.
  intros Hsup Hact. unfold toggle_adaptive_layout, IsAdaptiveLayoutEnabled.
  rewrite Hsup. simpl andb.
  destruct (proj2 (SetAdaptiveLayoutEnabled_is_Some e
                     (negb (m_isAdaptiveLayoutEnabled e))))
    as [e' He']; [by right|].
  exists e'. split; [done|].
  destruct (SetAdaptiveLayoutEnabled_frame _ _ _ He') as (_ & _ & Hflag).
  destruct (SetAdaptiveLayoutEnabled_static _ _ _ He') as (Hs & Hd & Hw & Hh).
  split; [done|]. split; [by rewrite Hs|]. split; [done|].
  split; [done|]. split; [done|].
  split; [by eapply SetAdaptiveLayoutEnabled_keeps_action|].
  split.
  - by eapply SetAdaptiveLayoutEnabled_settles.
  - by eapply SetAdaptiveLayoutEnabled_keeps_sync.
Qed.

End Toggle.

(** X20.  Toggling adaptive layout twice, on an editor that supports it,
    has its action and whose orientation is the one its state calls for,
    completes and brings back the flag and the orientation the editor had;
    a check mark that showed the flag shows it again. *)
Theorem toggle_adaptive_layout_twice {M H D C : Type}
    `{!CAbstractMenu.Ops M H, !CDockableContainer.Ops D H, !CEditorContent.Ops C}
    (e : CEditor M D C) :
  SupportsAdaptiveLayout e = true →
  is_Some (m_pActionAdaptiveLayout e) →
  orientationSettled e →
  ∃ e1 e2,
    toggle_adaptive_layout e = Some e1
    ∧ toggle_adaptive_layout e1 = Some e2
    ∧ m_isAdaptiveLayoutEnabled e1 = negb (m_isAdaptiveLayoutEnabled e)
    ∧ m_isAdaptiveLayoutEnabled e2 = m_isAdaptiveLayoutEnabled e
    ∧ m_currentOrientation e2 = m_currentOrientation e
    ∧ (checkMarkInSync e → checkMarkInSync e2).
Proof.
  intros Hsup Hact Hset.
  destruct (toggle_adaptive_layout_inverts e Hsup Hact)
    as (e1 & He1 & Hf1 & Hs1 & Hd1 & Hw1 & Hh1 & Ha1 & Hset1 & Hsync1).
  destruct (toggle_adaptive_layout_inverts e1 Hs1 Ha1)
    as (e2 & He2 & Hf2 & Hs2 & Hd2 & Hw2 & Hh2 & Ha2 & Hset2 & Hsync2).
  exists e1, e2. split; [done|]. split; [done|]. split; [done|].
  assert (m_isAdaptiveLayoutEnabled e2 = m_isAdaptiveLayoutEnabled e) as Hf.
  { rewrite Hf2, Hf1. apply negb_involutive. }
  split; [done|]. split; [|by auto].
  specialize (Hset2 (Hset1 Hset)).
  unfold orientationSettled, IsAdaptiveLayoutEnabled in *.
  by rewrite Hset2, Hset, Hs2, Hsup, Hf, Hw2, Hw1, Hh2, Hh1, Hd2, Hd1.
Qed.

Lemma toggle_adaptive_layout_twice_witness :
  ∃ e1 e2,
    toggle_adaptive_layout Plain.editor = Some e1
    ∧ toggle_adaptive_layout e1 = Some e2
    ∧ m_isAdaptiveLayoutEnabled e1 = false
    ∧ m_isAdaptiveLayoutEnabled e2 = true
    ∧ m_currentOrientation e2 = Horizontal.
Proof.
  destruct (toggle_adaptive_layout_twice Plain.editor)
    as (e1 & e2 & H1 & H2 & Hf1 & Hf2 & Ho & _);
    [reflexivity|by eexists|reflexivity|].
  exists e1, e2. by repeat split.
Defined.

(** X21.  When [SetLayout] completes on a state with an [adaptiveLayout]
    entry, [GetLayout] afterwards reports, as a [bool], what that entry
    converts to, whatever kind of value it was; [SetLayout] completes when
    the flag already has that value or the action exists. *)
Theorem SetLayout_adaptiveLayout_entry {M H D C : Type}
    `{!CDockableContainer.Ops D H, !CEditorContent.Ops C}
    (e : CEditor M D C) (state : QVariantMap) (v : QVariant) :
  state !! "adaptiveLayout" = Some v →
  m_isAdaptiveLayoutEnabled e = QVariant.toBool v
  ∨ is_Some (m_pActionAdaptiveLayout e) →
  ∃ e', SetLayout e state = Some e'
    ∧ m_isAdaptiveLayoutEnabled e' = QVariant.toBool v
    ∧ GetLayout e' !! "adaptiveLayout" = Some (QBool (QVariant.toBool v)).
Proof.
  intros Hv Hruns. rewrite SetLayout_unfold, (contains_present _ _ _ Hv),
    (value_present _ _ _ Hv).
  destruct (proj2 (SetAdaptiveLayoutEnabled_is_Some e (QVariant.toBool v)))
    as [e1 He1]; [done|].
  rewrite He1. simpl. eexists. split; [reflexivity|].
  destruct (SetAdaptiveLayoutEnabled_frame _ _ _ He1) as (_ & _ & Hflag).
  assert (m_isAdaptiveLayoutEnabled (restoreWidgets e1 state)
          = QVariant.toBool v) as Hf.
  { by rewrite (proj1 (restoreWidgets_frame e1 state)). }
  split; [done|].
  destruct (GetLayout_lookup (restoreWidgets e1 state)) as (-> & _).
  by rewrite Hf.
Qed.

Lemma SetLayout_adaptiveLayout_entry_witness :
  let state : QVariantMap := {[ "adaptiveLayout"%string := QStr "FALSE" ]} in
  ∃ e', SetLayout Plain.editor state = Some e'
    ∧ m_isAdaptiveLayoutEnabled e' = false
    ∧ GetLayout e' !! "adaptiveLayout" = Some (QBool false).
Proof.
  intros state.
  apply (SetLayout_adaptiveLayout_entry Plain.editor state (QStr "FALSE")).
  - reflexivity.
  - right. by eexists.
Defined.
